(** * main.py: scene-to-prompt templating and the mock content round trip

    A shallow embedding of [src/main.py].  Python objects live in an explicit
    store, the functions of the script are computations over that store and
    the text written to standard output, and the properties of the
    specification are proved about those computations. *)

From Stdlib Require Import Ascii String List Arith Lia.
From stdpp Require Import base option list strings.
Import ListNotations.

Local Open Scope string_scope.
Local Open Scope list_scope.
Local Open Scope nat_scope.

(** ** Text *)

(** A Python [str] is modelled as a Rocq [string], one [ascii] per
    character.  Every literal of main.py is plain ASCII. *)

Definition nl : string := String "010"%char "".
Definition dq : string := String "034"%char "".

(** [needle in hay], as a proposition and as a test. *)
Definition Substring (needle hay : string) : Prop :=
  exists before after, hay = before +:+ needle +:+ after.

Fixpoint contains (needle hay : string) : bool :=
  String.prefix needle hay ||
  match hay with
  | EmptyString => false
  | String _ rest => contains needle rest
  end.

(** [s.split("\n")]: the maximal newline-free pieces of [s], in order. *)
Fixpoint lines (s : string) : list string :=
  match s with
  | EmptyString => [""]
  | String c rest =>
      if Ascii.eqb c "010"%char then "" :: lines rest
      else match lines rest with
           | [] => [String c ""]
           | l :: ls => String c l :: ls
           end
  end.

Fixpoint no_newline (s : string) : bool :=
  match s with
  | EmptyString => true
  | String c rest => negb (Ascii.eqb c "010"%char) && no_newline rest
  end.

(** ** Python values, the object store and the effects of a call *)

(** Strings are immutable values; lists and dicts are mutable objects reached
    through a reference into the store.  A dict keeps its entries in
    insertion order (the order [json.dumps] and iteration follow); all keys
    of the program are strings. *)
Definition loc := nat.

Inductive val :=
| VStr (s : string)
| VRef (l : loc).

Inductive obj :=
| OList (items : list val)
| ODict (entries : list (string * val)).

Record world := World {
  heap : list obj;        (* the objects allocated so far; a reference indexes it *)
  stdout : list string    (* what each write to sys.stdout has written, oldest first *)
}.

Inductive exn :=
| KeyError (key : string)
| TypeError
| ValueError
| JSONDecodeError
| SyntaxError.

(** The result of running a piece of Python: a value, a raised exception, or
    [Unmodelled] where Python's behaviour lies outside this embedding (the
    [repr] of a container inside an f-string, a dangling reference, JSON
    numbers and literals). *)
Inductive outcome (A : Type) :=
| Ok (a : A)
| Raise (e : exn)
| Unmodelled.
Arguments Ok {A} a.
Arguments Raise {A} e.
Arguments Unmodelled {A}.

Definition M (A : Type) : Type := world -> outcome A * world.

#[export] Instance M_ret : MRet M := fun A a w => (Ok a, w).
#[export] Instance M_bind : MBind M := fun A B f m w =>
  match m w with
  | (Ok a, w') => f a w'
  | (Raise e, w') => (Raise e, w')
  | (Unmodelled, w') => (Unmodelled, w')
  end.

Definition raise {A} (e : exn) : M A := fun w => (Raise e, w).
Definition unmodelled {A} : M A := fun w => (Unmodelled, w).

Definition deref (l : loc) : M obj := fun w =>
  match heap w !! l with
  | Some o => (Ok o, w)
  | None => (Unmodelled, w)
  end.

(** Allocation of a new object: the store grows at its end. *)
Definition new (o : obj) : M val := fun w =>
  (Ok (VRef (length (heap w))), World (heap w ++ [o]) (stdout w)).

(** [print(s)] for a str [s]. *)
Definition print (s : string) : M unit := fun w =>
  (Ok tt, World (heap w) (stdout w ++ [s +:+ nl])).

Fixpoint dict_get (d : list (string * val)) (k : string) : option val :=
  match d with
  | [] => None
  | (k', v) :: rest => if String.eqb k' k then Some v else dict_get rest k
  end.

(** [x[k]] for a str key [k]: a dict is looked up, a list or a str rejects
    the key's type. *)
Definition subscript (x : val) (k : string) : M val :=
  match x with
  | VStr _ => raise TypeError
  | VRef l =>
      o ← deref l;
      match o with
      | OList _ => raise TypeError
      | ODict d =>
          match dict_get d k with
          | Some v => mret v
          | None => raise (KeyError k)
          end
      end
  end.

(** The items [for _ in x] visits: the items of a list, the keys of a dict,
    the characters of a str. *)
Definition iterate (x : val) : M (list val) :=
  match x with
  | VStr s => mret (map (fun c => VStr (String c "")) (list_ascii_of_string s))
  | VRef l =>
      o ← deref l;
      match o with
      | OList xs => mret xs
      | ODict d => mret (map (fun kv => VStr (fst kv)) d)
      end
  end.

(** A replacement field [{x}] of an f-string: a str stands for itself.  A
    list or a dict would be written as its [repr], which this embedding
    leaves out. *)
Definition format_value (x : val) : M string :=
  match x with
  | VStr s => mret s
  | VRef _ => unmodelled
  end.

(** [sep.join(x)]: every item must be a str. *)
Definition str_join (sep : string) (x : val) : M string :=
  items ← iterate x;
  strs ← mapM (fun v => match v with
                        | VStr s => mret s
                        | VRef _ => raise TypeError
                        end) items;
  mret (String.concat sep strs).

(** ** create_curator_prompt (main.py, lines 68-105) *)

(** The f-string of line 76. *)
Definition object_line (name material position tags : string) : string :=
  "- " +:+ name +:+ ": Made of " +:+ material +:+ ". Positioned at: " +:+ position
  +:+ ". Tags: " +:+ tags +:+ ".".

(** The triple-quoted f-string of lines 80-104, one entry per line of the
    literal: it opens with a line break and ends with the indentation of the
    closing quotes. *)
Definition prompt_lines
    (scene_name overall_style lighting_type lighting_source object_descriptions : string)
    : list string :=
  [
    "";
    "    **Persona Instruction:**";
    "    You are an expert virtual curator and interior design storyteller for a high-end spatial computing platform. Your task is to transform raw 3D scene data into a rich, evocative, and engaging narrative. Do not just list the objects. Instead, weave them into a cohesive story that describes the atmosphere, the lifestyle of the imagined owner, and the interplay between the elements.";
    "";
    "    **Contextual Scene Data:**";
    "    - Scene Name: " +:+ scene_name;
    "    - Dominant Style: " +:+ overall_style;
    "    - Lighting Conditions: " +:+ lighting_type +:+ " from " +:+ lighting_source;
    "    - Objects in Scene:";
    "    " +:+ object_descriptions;
    "";
    "    **Task & Output Structure:**";
    "    Based on the data above, generate a JSON object with three distinct keys: " +:+ dq +:+ "title" +:+ dq +:+ ", " +:+ dq +:+ "narrative" +:+ dq +:+ ", and " +:+ dq +:+ "design_suggestions" +:+ dq +:+ ".";
    "";
    "    1.  **title**: Create a short, catchy, and descriptive title for this scene.";
    "    2.  **narrative**: Write a detailed, multi-paragraph story about the space.";
    "        - Start by describing the overall feeling and atmosphere created by the lighting and style.";
    "        - Describe how the main furniture pieces (like the sofa and table) anchor the space.";
    "        - Integrate the decorative elements (plant, art) into the narrative, explaining how they contribute to the mood.";
    "        - Imply the personality of the person who lives here through your description.";
    "    3.  **design_suggestions**: Provide three actionable design suggestions as a list of strings. These should be creative ideas to enhance the space further, based on the existing elements. For example, suggest adding a complementary texture, a specific type of rug, or another piece of decor.";
    "";
    "    **Constraint:**";
    "    Your final output must be a single, valid JSON object and nothing else. Do not include any explanatory text before or after the JSON.";
    "    "
  ].

Definition prompt_text
    (scene_name overall_style lighting_type lighting_source object_descriptions : string)
    : string :=
  String.concat nl
    (prompt_lines scene_name overall_style lighting_type lighting_source object_descriptions).

(** One item of the list comprehension of lines 75-78. *)
Definition describe_object (obj : val) : M string :=
  name ← subscript obj "name" ≫= format_value;
  material ← subscript obj "material" ≫= format_value;
  position ← subscript obj "position" ≫= format_value;
  tags ← subscript obj "tags" ≫= str_join ", ";
  mret (object_line name material position tags).

Definition create_curator_prompt (scene : val) : M string :=
  objects ← subscript scene "objects" ≫= iterate;
  described ← mapM describe_object objects;
  let object_descriptions := String.concat nl described in
  scene_name ← subscript scene "scene_name" ≫= format_value;
  overall_style ← subscript scene "overall_style" ≫= format_value;
  lighting_type ← (subscript scene "lighting" ≫= fun l => subscript l "type") ≫= format_value;
  lighting_source ← (subscript scene "lighting" ≫= fun l => subscript l "source") ≫= format_value;
  mret (prompt_text scene_name overall_style lighting_type lighting_source object_descriptions).

(** ** Display expressions and object construction *)

(** The value a list or dict display (or a JSON document) denotes, before
    any object is allocated for it. *)
#[warnings="-register-all"]
Inductive tree :=
| TStr (s : string)
| TList (items : list tree)
| TDict (entries : list (string * tree)).

(** [d[k] = v]: an existing key keeps its place, a new key goes last. *)
Fixpoint dict_set (d : list (string * val)) (k : string) (v : val) : list (string * val) :=
  match d with
  | [] => [(k, v)]
  | (k', v') :: rest =>
      if String.eqb k' k then (k', v) :: rest else (k', v') :: dict_set rest k v
  end.

Definition dict_of_pairs (kvs : list (string * val)) : list (string * val) :=
  fold_left (fun d kv => dict_set d (fst kv) (snd kv)) kvs [].

(** Evaluating a display: the items are built left to right, then the
    container itself is allocated. *)
Fixpoint build (t : tree) : M val :=
  match t with
  | TStr s => mret (VStr s)
  | TList ts => vs ← mapM build ts; new (OList vs)
  | TDict kts =>
      kvs ← mapM (fun kt => v ← build (snd kt); mret (fst kt, v)) kts;
      new (ODict (dict_of_pairs kvs))
  end.

(** ** The scene literal (main.py, lines 17-61) *)

Definition scene_data : tree :=
  TDict [
    ("scene_name", TStr "Modern Loft Living Room");
    ("overall_style", TStr "Minimalist, Industrial");
    ("lighting", TDict [
       ("type", TStr "Natural, bright afternoon sun");
       ("source", TStr "Large floor-to-ceiling windows")
     ]);
    ("objects", TList [
       TDict [
         ("id", TStr "sofa_01");
         ("name", TStr "Leather Sofa");
         ("tags", TList [TStr "seating"; TStr "main furniture"; TStr "comfortable"]);
         ("material", TStr "Distressed brown leather");
         ("position", TStr "Center of the room, facing the windows")
       ];
       TDict [
         ("id", TStr "table_01");
         ("name", TStr "Concrete Coffee Table");
         ("tags", TList [TStr "table"; TStr "centerpiece"; TStr "functional"]);
         ("material", TStr "Polished concrete with steel legs");
         ("position", TStr "In front of the leather sofa")
       ];
       TDict [
         ("id", TStr "plant_01");
         ("name", TStr "Fiddle Leaf Fig");
         ("tags", TList [TStr "plant"; TStr "organic"; TStr "decoration"; TStr "life"]);
         ("material", TStr "Green leaves, terracotta pot");
         ("position", TStr "In the corner, near the windows")
       ];
       TDict [
         ("id", TStr "lamp_01");
         ("name", TStr "Arc Floor Lamp");
         ("tags", TList [TStr "lighting"; TStr "modern"; TStr "accent"]);
         ("material", TStr "Brushed nickel");
         ("position", TStr "Arching over the sofa from behind")
       ];
       TDict [
         ("id", TStr "art_01");
         ("name", TStr "Abstract Painting");
         ("tags", TList [TStr "art"; TStr "wall decor"; TStr "color accent"]);
         ("material", TStr "Canvas with bold blue and yellow strokes");
         ("position", TStr "On the exposed brick wall behind the sofa")
       ]
     ])
  ].

(** ** The mock response (main.py, lines 128-136) *)

Definition mock_response : tree :=
  TDict [
    ("title", TStr "Sun-Drenched Industrial Serenity");
    ("narrative", TStr ("As the bright afternoon sun streams through vast, floor-to-ceiling windows, it illuminates a space that is both raw and refined. This modern loft is a sanctuary of minimalist industrial design, where every object feels intentional. The centerpiece is a handsome, distressed brown leather sofa, its worn texture inviting you to sink in and relax. It faces the light, suggesting a resident who appreciates warmth and openness." +:+ nl +:+ nl +:+ "In front of it, a polished concrete coffee table stands as a testament to functional art, its cool surface and steel legs providing a stark, beautiful contrast to the sofa's warmth. Life is breathed into the space by a tall Fiddle Leaf Fig, its vibrant green leaves reaching for the sun from a terracotta pot in the corner. Above, a brushed nickel arc lamp elegantly sweeps over the seating area, ready to provide a focused glow as day turns to night. The entire scene is anchored by a bold, abstract painting on the exposed brick wall, its energetic blue and yellow strokes infusing the calm space with a burst of creative spirit. This is clearly the home of a discerning individual with an eye for design and a love for uncluttered, light-filled living."));
    ("design_suggestions", TList [
       TStr "Add a soft, high-pile wool rug in a neutral grey or cream color under the sofa and coffee table to soften the concrete and add textural warmth.";
       TStr "Introduce a set of floating wooden shelves on the brick wall to display books or curated objects, adding a personal touch.";
       TStr "Consider adding a single, comfortable armchair in a contrasting fabric like dark blue velvet to create a cozy reading nook."
     ])
  ].

(** ** json.dumps(obj, indent=2) and json.loads *)

#[export] Instance outcome_ret : MRet outcome := fun A a => Ok a.
#[export] Instance outcome_bind : MBind outcome := fun A B f m =>
  match m with
  | Ok a => f a
  | Raise e => Raise e
  | Unmodelled => Unmodelled
  end.
#[export] Instance outcome_fmap : FMap outcome := fun A B f m =>
  match m with
  | Ok a => Ok (f a)
  | Raise e => Raise e
  | Unmodelled => Unmodelled
  end.

(** The value reachable from [v], read off the store.  [json.dumps] walks
    the objects depth first and raises ValueError (circular reference) when
    it meets an object again below itself; a chain of references longer than
    the store has to pass through some object twice, so running out of
    [fuel] when started with more fuel than the store has objects is that
    error. *)
Fixpoint reify (fuel : nat) (h : list obj) (v : val) : outcome tree :=
  match v with
  | VStr s => Ok (TStr s)
  | VRef l =>
      match fuel with
      | 0 => Raise ValueError
      | S fuel' =>
          match h !! l with
          | None => Unmodelled
          | Some (OList xs) => TList <$> mapM (reify fuel' h) xs
          | Some (ODict d) =>
              TDict <$> mapM (fun kv => t ← reify fuel' h (snd kv); mret (fst kv, t)) d
          end
      end
  end.

Definition hex_digit (n : nat) : ascii :=
  if n <? 10 then ascii_of_nat (48 + n) else ascii_of_nat (87 + n).

(** [encode_basestring_ascii]: everything outside the printable ASCII range,
    the quote and the backslash are escaped. *)
Definition escape_char (c : ascii) : string :=
  let n := nat_of_ascii c in
  let bs := String "092"%char "" in
  if n =? 34 then bs +:+ dq
  else if n =? 92 then bs +:+ bs
  else if n =? 10 then bs +:+ "n"
  else if n =? 13 then bs +:+ "r"
  else if n =? 9 then bs +:+ "t"
  else if n =? 8 then bs +:+ "b"
  else if n =? 12 then bs +:+ "f"
  else if (n <? 32) || (126 <? n) then
    bs +:+ "u00" +:+ String (hex_digit (n / 16)) (String (hex_digit (n mod 16)) "")
  else String c "".

Fixpoint escape (s : string) : string :=
  match s with
  | EmptyString => ""
  | String c rest => escape_char c +:+ escape rest
  end.

Definition encode_string (s : string) : string := dq +:+ escape s +:+ dq.

Fixpoint spaces (n : nat) : string :=
  match n with
  | 0 => ""
  | S n' => String " "%char (spaces n')
  end.

(** A line break followed by the indentation of nesting depth [level]. *)
Definition newline_indent (level : nat) : string := nl +:+ spaces (2 * level).

(** The text of a value at nesting depth [level]: items one per line,
    separated by [","], keys and values by [": "]; an empty container takes
    no line break. *)
Fixpoint encode (level : nat) (t : tree) : string :=
  match t with
  | TStr s => encode_string s
  | TList [] => "[]"
  | TList ts =>
      "[" +:+ newline_indent (S level)
      +:+ String.concat ("," +:+ newline_indent (S level)) (map (encode (S level)) ts)
      +:+ newline_indent level +:+ "]"
  | TDict [] => "{}"
  | TDict kts =>
      "{" +:+ newline_indent (S level)
      +:+ String.concat ("," +:+ newline_indent (S level))
            (map (fun kt => encode_string (fst kt) +:+ ": " +:+ encode (S level) (snd kt)) kts)
      +:+ newline_indent level +:+ "}"
  end.

Definition json_dumps (v : val) : M string := fun w =>
  match reify (S (length (heap w))) (heap w) v with
  | Ok t => (Ok (encode 0 t), w)
  | Raise e => (Raise e, w)
  | Unmodelled => (Unmodelled, w)
  end.

(** The decoder, on the JSON of objects, arrays and strings of characters
    below 256.  Numbers, [true], [false], [null] and larger code points
    are [Unsupported]. *)
Inductive parse (A : Type) :=
| Parsed (a : A) (rest : string)
| Malformed
| Unsupported.
Arguments Parsed {A} a rest.
Arguments Malformed {A}.
Arguments Unsupported {A}.

Definition parse_bind {A B} (p : parse A) (k : A -> string -> parse B) : parse B :=
  match p with
  | Parsed a rest => k a rest
  | Malformed => Malformed
  | Unsupported => Unsupported
  end.

Definition is_ws (c : ascii) : bool :=
  let n := nat_of_ascii c in (n =? 32) || (n =? 9) || (n =? 10) || (n =? 13).

Fixpoint skip_ws (s : string) : string :=
  match s with
  | EmptyString => s
  | String c rest => if is_ws c then skip_ws rest else s
  end.

Definition hex_value (c : ascii) : option nat :=
  let n := nat_of_ascii c in
  if (48 <=? n) && (n <=? 57) then Some (n - 48)
  else if (97 <=? n) && (n <=? 102) then Some (n - 87)
  else if (65 <=? n) && (n <=? 70) then Some (n - 55)
  else None.

Definition hex4 (a b c d : ascii) : option nat :=
  x ← hex_value a; y ← hex_value b; z ← hex_value c; t ← hex_value d;
  Some (((x * 16 + y) * 16 + z) * 16 + t).

(** The character a backslash escape other than [\u] stands for. *)
Definition unescape (e : ascii) : option ascii :=
  let n := nat_of_ascii e in
  if (n =? 34) || (n =? 92) || (n =? 47) then Some e
  else if n =? 98 then Some "008"%char
  else if n =? 102 then Some "012"%char
  else if n =? 110 then Some "010"%char
  else if n =? 114 then Some "013"%char
  else if n =? 116 then Some "009"%char
  else None.

(** The characters of a string up to its closing quote; [s] starts after the
    opening quote.  A raw control character is refused. *)
Fixpoint scan_string (s : string) : parse string :=
  match s with
  | EmptyString => Malformed
  | String c rest =>
      let n := nat_of_ascii c in
      if n =? 34 then Parsed "" rest
      else if n =? 92 then
        match rest with
        | EmptyString => Malformed
        | String e rest' =>
            if nat_of_ascii e =? 117 then
              match rest' with
              | String h1 (String h2 (String h3 (String h4 rest''))) =>
                  match hex4 h1 h2 h3 h4 with
                  | Some code =>
                      if code <? 256 then
                        parse_bind (scan_string rest'')
                          (fun x r => Parsed (String (ascii_of_nat code) x) r)
                      else Unsupported
                  | None => Malformed
                  end
              | _ => Malformed
              end
            else
              match unescape e with
              | Some c' => parse_bind (scan_string rest') (fun x r => Parsed (String c' x) r)
              | None => Malformed
              end
        end
      else if n <? 32 then Malformed
      else parse_bind (scan_string rest) (fun x r => Parsed (String c x) r)
  end.

(** The first character of a number or of a literal name. *)
Definition starts_scalar (c : ascii) : bool :=
  let n := nat_of_ascii c in
  ((48 <=? n) && (n <=? 57)) || (n =? 45) || (n =? 110) || (n =? 116) || (n =? 102)
  || (n =? 78) || (n =? 73).

Fixpoint scan_value (fuel : nat) (s : string) : parse tree :=
  match fuel with
  | 0 => Unsupported
  | S fuel' =>
      match s with
      | EmptyString => Malformed
      | String c rest =>
          let n := nat_of_ascii c in
          if n =? 34 then parse_bind (scan_string rest) (fun x r => Parsed (TStr x) r)
          else if n =? 91 then
            match skip_ws rest with
            | EmptyString => Malformed
            | String c' rest' as body =>
                if nat_of_ascii c' =? 93 then Parsed (TList []) rest'
                else parse_bind (scan_elements fuel' body) (fun ts r => Parsed (TList ts) r)
            end
          else if n =? 123 then
            match skip_ws rest with
            | EmptyString => Malformed
            | String c' rest' as body =>
                if nat_of_ascii c' =? 125 then Parsed (TDict []) rest'
                else parse_bind (scan_members fuel' body) (fun kts r => Parsed (TDict kts) r)
            end
          else if starts_scalar c then Unsupported
          else Malformed
      end
  end
with scan_elements (fuel : nat) (s : string) : parse (list tree) :=
  match fuel with
  | 0 => Unsupported
  | S fuel' =>
      parse_bind (scan_value fuel' s) (fun t r =>
        match skip_ws r with
        | EmptyString => Malformed
        | String c rest =>
            if nat_of_ascii c =? 93 then Parsed [t] rest
            else if nat_of_ascii c =? 44 then
              parse_bind (scan_elements fuel' (skip_ws rest)) (fun ts r' => Parsed (t :: ts) r')
            else Malformed
        end)
  end
with scan_members (fuel : nat) (s : string) : parse (list (string * tree)) :=
  match fuel with
  | 0 => Unsupported
  | S fuel' =>
      match s with
      | EmptyString => Malformed
      | String q rest =>
          if nat_of_ascii q =? 34 then
            parse_bind (scan_string rest) (fun k r =>
              match skip_ws r with
              | EmptyString => Malformed
              | String colon r1 =>
                  if nat_of_ascii colon =? 58 then
                    parse_bind (scan_value fuel' (skip_ws r1)) (fun t r2 =>
                      match skip_ws r2 with
                      | EmptyString => Malformed
                      | String c r3 =>
                          if nat_of_ascii c =? 125 then Parsed [(k, t)] r3
                          else if nat_of_ascii c =? 44 then
                            parse_bind (scan_members fuel' (skip_ws r3))
                              (fun kts r4 => Parsed ((k, t) :: kts) r4)
                          else Malformed
                      end)
                  else Malformed
              end)
          else Malformed
      end
  end.

(** A whole document: one value, white space around it and nothing else.
    Every nested call of the scanners follows at least one character read
    or one call that reads one, so the fuel outlasts the text. *)
Definition decode (s : string) : parse tree :=
  parse_bind (scan_value (2 * String.length s + 2) (skip_ws s)) (fun t r =>
    match skip_ws r with
    | EmptyString => Parsed t ""
    | String _ _ => Malformed
    end).

Definition json_loads (s : string) : M val :=
  match decode s with
  | Parsed t _ => build t
  | Malformed => raise JSONDecodeError
  | Unsupported => unmodelled
  end.

(** ** generate_scene_content (main.py, lines 109-138) *)

(** The function is declared [async] and holds no [await]: awaiting it runs
    its body from start to end. *)
Definition generate_scene_content (scene : val) : M string :=
  prompt ← create_curator_prompt scene;
  _ ← print "--- Generated Prompt for LLM ---";
  _ ← print prompt;
  _ ← print "---------------------------------";
  response ← build mock_response;
  json_dumps response.

(** ** The script (main.py, lines 142-152) *)

(** The body of [if __name__ == "__main__":], given the object bound to the
    global [scene_data].  Line 144 awaits [generate_scene_content]. *)
Definition main_block (scene : val) : M unit :=
  _ ← print "Generating 3D-aware content for the scene...";
  generated_content_json ← generate_scene_content scene;
  _ ← print (nl +:+ "--- Generated Content (JSON Output) ---");
  _ ← print generated_content_json;
  _ ← print "--------------------------------------";
  content_obj ← json_loads generated_content_json;
  title ← subscript content_obj "title" ≫= format_value;
  print (nl +:+ "Title: " +:+ title).

(** The statements of the module in order: the scene literal is bound, the
    two functions are defined, and the guarded block runs when the module is
    the program's entry point. *)
Definition module_body (dunder_name : string) : M unit :=
  scene ← build scene_data;
  if String.eqb dunder_name "__main__" then main_block scene else mret tt.

(** Python compiles a module before it runs any of it, and the compiler
    refuses an [await] expression that stands outside every function body
    ("SyntaxError: 'await' outside function") or inside a function that is
    not [async].  Only a host that enables top-level await (the asyncio
    REPL, a notebook cell) compiles an [await] at module level.

    [shape] keeps of a statement what that check looks at: whether a simple
    statement holds an [await] expression, and how statements nest. *)
#[warnings="-register-all"]
Inductive shape :=
| Simple (awaits : bool)
| Def (is_async : bool) (body : list shape)
| IfBlock (body : list shape).

Inductive context := AtModule | InDef (is_async : bool).

Fixpoint refused (c : context) (s : shape) : bool :=
  match s with
  | Simple awaits =>
      awaits && match c with
                | InDef true => false
                | _ => true
                end
  | Def is_async body => existsb (refused (InDef is_async)) body
  | IfBlock body => existsb (refused c) body
  end.

(** The statements of main.py. *)
Definition main_py : list shape :=
  [ Simple false;            (* line 6: import json *)
    Simple false;            (* lines 17-61: scene_data = {...} *)
    Def false                (* line 68: def create_curator_prompt(scene) *)
      [ Simple false;        (* docstring *)
        Simple false;        (* lines 75-78: object_descriptions = ... *)
        Simple false;        (* lines 80-104: prompt = ... *)
        Simple false ];      (* line 105: return prompt *)
    Def true                 (* line 109: async def generate_scene_content(scene_data) *)
      [ Simple false;        (* docstring *)
        Simple false;        (* line 113: prompt = create_curator_prompt(scene_data) *)
        Simple false;        (* line 114: print *)
        Simple false;        (* line 115: print *)
        Simple false;        (* line 116: print *)
        Simple false;        (* lines 128-136: mock_response = {...} *)
        Simple false ];      (* line 138: return json.dumps(...) *)
    IfBlock                  (* line 142: if __name__ == "__main__": *)
      [ Simple false;        (* line 143: print *)
        Simple true;         (* line 144: generated_content_json = await ... *)
        Simple false;        (* line 146: print *)
        Simple false;        (* line 147: print *)
        Simple false;        (* line 148: print *)
        Simple false;        (* line 151: content_obj = json.loads(...) *)
        Simple false ] ].    (* line 152: print *)

Inductive host := Script | TopLevelAwait.

(** Running main.py as the program's entry point. *)
Definition run_module (how : host) : M unit :=
  match how with
  | Script =>
      if existsb (refused AtModule) main_py then raise SyntaxError
      else module_body "__main__"
  | TopLevelAwait => module_body "__main__"
  end.

(** ** The data model of the specification, as a view of the store *)

Record SceneObject := {
  o_displayName : string;
  o_tags : list string;
  o_material : string;
  o_position : string
}.

Record Lighting := {
  l_kind : string;
  l_source : string
}.

Record SceneDescription := {
  sc_name : string;
  sc_style : string;
  sc_lighting : Lighting;
  sc_objects : list SceneObject
}.

Definition read_str (v : val) : option string :=
  match v with
  | VStr s => Some s
  | VRef _ => None
  end.

Definition read_dict (h : list obj) (v : val) : option (list (string * val)) :=
  match v with
  | VStr _ => None
  | VRef l =>
      match h !! l with
      | Some (ODict d) => Some d
      | _ => None
      end
  end.

Definition read_list (h : list obj) (v : val) : option (list val) :=
  match v with
  | VStr _ => None
  | VRef l =>
      match h !! l with
      | Some (OList xs) => Some xs
      | _ => None
      end
  end.

(** An object conforms when it is a dict with str values under "name",
    "material" and "position" and a list of str under "tags"; other keys
    (such as "id") are not looked at. *)
Definition read_object (h : list obj) (v : val) : option SceneObject :=
  d ← read_dict h v;
  n ← dict_get d "name" ≫= read_str;
  m ← dict_get d "material" ≫= read_str;
  p ← dict_get d "position" ≫= read_str;
  ts ← (dict_get d "tags" ≫= read_list h) ≫= mapM read_str;
  Some {| o_displayName := n; o_tags := ts; o_material := m; o_position := p |}.

Definition read_lighting (h : list obj) (v : val) : option Lighting :=
  d ← read_dict h v;
  k ← dict_get d "type" ≫= read_str;
  s ← dict_get d "source" ≫= read_str;
  Some {| l_kind := k; l_source := s |}.

(** [read_scene h v = Some sc]: in store [h], [v] is a scene that conforms
    to the data model, and [sc] is what it holds. *)
Definition read_scene (h : list obj) (v : val) : option SceneDescription :=
  d ← read_dict h v;
  n ← dict_get d "scene_name" ≫= read_str;
  s ← dict_get d "overall_style" ≫= read_str;
  l ← dict_get d "lighting" ≫= read_lighting h;
  os ← (dict_get d "objects" ≫= read_list h) ≫= mapM (read_object h);
  Some {| sc_name := n; sc_style := s; sc_lighting := l; sc_objects := os |}.

(** The operation [compose] of the specification, on the data model. *)
Definition render_object (o : SceneObject) : string :=
  object_line (o_displayName o) (o_material o) (o_position o)
    (String.concat ", " (o_tags o)).

Definition compose (sc : SceneDescription) : string :=
  prompt_text (sc_name sc) (sc_style sc)
    (l_kind (sc_lighting sc)) (l_source (sc_lighting sc))
    (String.concat nl (map render_object (sc_objects sc))).

Definition single_line_object (o : SceneObject) : bool :=
  no_newline (o_displayName o) && no_newline (o_material o)
  && no_newline (o_position o) && forallb no_newline (o_tags o).

(** No text field of the scene holds a line break. *)
Definition single_line_scene (sc : SceneDescription) : bool :=
  no_newline (sc_name sc) && no_newline (sc_style sc)
  && no_newline (l_kind (sc_lighting sc)) && no_newline (l_source (sc_lighting sc))
  && forallb single_line_object (sc_objects sc).

(** The lines of [s] that start with a dash and a space. *)
Definition dash_lines (s : string) : list string :=
  filter (fun l => String.prefix "- " l = true) (lines s).

(** Nesting depth, and distinct keys in every dict. *)
Fixpoint depth (t : tree) : nat :=
  match t with
  | TStr _ => 0
  | TList ts => S (list_max (map depth ts))
  | TDict kts => S (list_max (map (fun kt => depth (snd kt)) kts))
  end.

Fixpoint distinct (ks : list string) : bool :=
  match ks with
  | [] => true
  | k :: rest => negb (existsb (String.eqb k) rest) && distinct rest
  end.

Fixpoint wf_tree (t : tree) : bool :=
  match t with
  | TStr _ => true
  | TList ts => forallb wf_tree ts
  | TDict kts => distinct (map fst kts) && forallb (fun kt => wf_tree (snd kt)) kts
  end.

(** A store with an empty scene: its lighting, its empty object list and the
    scene that refers to both. *)
Definition bare_heap : list obj :=
  [ ODict [("type", VStr "Dim"); ("source", VStr "One candle")];
    OList [];
    ODict [("scene_name", VStr "Empty Room"); ("overall_style", VStr "Bare");
           ("lighting", VRef 0); ("objects", VRef 1)] ].

Definition bare_scene : SceneDescription :=
  {| sc_name := "Empty Room"; sc_style := "Bare";
     sc_lighting := {| l_kind := "Dim"; l_source := "One candle" |};
     sc_objects := [] |}.

(** The store the script has after line 61, and the loft scene in it. *)
Definition loft_world : world := snd (build scene_data (World [] [])).
Definition loft_ref : val := VRef 12.

Definition loft_scene : SceneDescription :=
  {| sc_name := "Modern Loft Living Room";
     sc_style := "Minimalist, Industrial";
     sc_lighting := {| l_kind := "Natural, bright afternoon sun";
                       l_source := "Large floor-to-ceiling windows" |};
     sc_objects :=
       [ {| o_displayName := "Leather Sofa";
            o_tags := ["seating"; "main furniture"; "comfortable"];
            o_material := "Distressed brown leather";
            o_position := "Center of the room, facing the windows" |};
         {| o_displayName := "Concrete Coffee Table";
            o_tags := ["table"; "centerpiece"; "functional"];
            o_material := "Polished concrete with steel legs";
            o_position := "In front of the leather sofa" |};
         {| o_displayName := "Fiddle Leaf Fig";
            o_tags := ["plant"; "organic"; "decoration"; "life"];
            o_material := "Green leaves, terracotta pot";
            o_position := "In the corner, near the windows" |};
         {| o_displayName := "Arc Floor Lamp";
            o_tags := ["lighting"; "modern"; "accent"];
            o_material := "Brushed nickel";
            o_position := "Arching over the sofa from behind" |};
         {| o_displayName := "Abstract Painting";
            o_tags := ["art"; "wall decor"; "color accent"];
            o_material := "Canvas with bold blue and yellow strokes";
            o_position := "On the exposed brick wall behind the sofa" |} ] |}.

(** The lines the object block takes in the prompt: the template indents
    the place of the block, so the first rendered line stands behind four
    spaces and the others start their line. *)
Definition indented_block (rendered : list string) : list string :=
  match rendered with
  | [] => ["    "]
  | first :: others => ("    " +:+ first) :: others
  end.

(** A computation that leaves the store and standard output as they were,
    whatever its outcome. *)
Definition readonly {A} (m : M A) : Prop := ∀ w, snd (m w) = w.

(** What building [t] in world [w] gives: a value [v] and the new objects
    [ext] at the end of the store, such that [v] reads back as [t] however
    the store grows afterwards. *)
Definition built (t : tree) (w : world) (v : val) (ext : list obj) : Prop :=
  build t w = (Ok v, World (heap w ++ ext) (stdout w))
  ∧ depth t ≤ length ext
  ∧ ∀ fuel more, depth t ≤ fuel → reify fuel (heap w ++ ext ++ more) v = Ok t.

(** What the guarded block writes when the host allows [await] at module
    level: one entry per [print] call. *)
Definition expected_stdout : list string :=
  [ "Generating 3D-aware content for the scene..." +:+ nl;
    "--- Generated Prompt for LLM ---" +:+ nl;
    compose loft_scene +:+ nl;
    "---------------------------------" +:+ nl;
    nl +:+ "--- Generated Content (JSON Output) ---" +:+ nl;
    encode 0 mock_response +:+ nl;
    "--------------------------------------" +:+ nl;
    nl +:+ "Title: Sun-Drenched Industrial Serenity" +:+ nl ].

(** The lines of the template above and below the place of the object
    block (lines 80-88 and 90-104 of main.py). *)
Definition lines_before_block (sc : SceneDescription) : list string :=
  firstn 9 (prompt_lines (sc_name sc) (sc_style sc)
              (l_kind (sc_lighting sc)) (l_source (sc_lighting sc)) "").

Definition lines_after_block : list string :=
  skipn 10 (prompt_lines "" "" "" "" "").

(** ** Stores with scenes that do not conform *)

(** A scene whose only object lacks "material", and which has no other key
    than "objects". *)
Definition broken_object_heap : list obj :=
  [ ODict [("name", VStr "Chair")];
    OList [VRef 0];
    ODict [("objects", VRef 1)] ].

(** A scene with an empty object list and a name, but no "overall_style". *)
Definition unstyled_heap : list obj :=
  [ OList [];
    ODict [("scene_name", VStr "Attic"); ("objects", VRef 0)] ].

(** An object whose tags are one str instead of a list of str. *)
Definition str_tags_heap : list obj :=
  [ ODict [("name", VStr "Chair"); ("material", VStr "Oak");
           ("position", VStr "Left wall"); ("tags", VStr "old")] ].

(** The number of lists and dicts in a display. *)
Fixpoint containers (t : tree) : nat :=
  match t with
  | TStr _ => 0
  | TList ts => S (list_sum (map containers ts))
  | TDict kts => S (list_sum (map (fun kt => containers (snd kt)) kts))
  end.

(** The entry of a dict display under key [k]. *)
Fixpoint tree_get (kts : list (string * tree)) (k : string) : option tree :=
  match kts with
  | [] => None
  | (k', t) :: rest => if String.eqb k' k then Some t else tree_get rest k
  end.

(** Fuel that lets the scanners read the text of [t]: one unit per value,
    and one per item for the walk along the items of a container. *)
Fixpoint need (t : tree) : nat :=
  match t with
  | TStr _ => 1
  | TList ts =>
      S ((fix items (ts : list tree) : nat :=
            match ts with
            | [] => 0
            | t :: rest => S (Nat.max (need t) (items rest))
            end) ts)
  | TDict kts =>
      S ((fix entries (kts : list (string * tree)) : nat :=
            match kts with
            | [] => 0
            | kt :: rest => S (Nat.max (need (snd kt)) (entries rest))
            end) kts)
  end.

Fixpoint need_items (ts : list tree) : nat :=
  match ts with
  | [] => 0
  | t :: rest => S (Nat.max (need t) (need_items rest))
  end.

Fixpoint need_entries (kts : list (string * tree)) : nat :=
  match kts with
  | [] => 0
  | kt :: rest => S (Nat.max (need (snd kt)) (need_entries rest))
  end.

(** Only line breaks and printable ASCII characters. *)
Fixpoint ascii_only (s : string) : bool :=
  match s with
  | EmptyString => true
  | String c rest =>
      let n := nat_of_ascii c in
      ((n =? 10) || ((32 <=? n) && (n <=? 126))) && ascii_only rest
  end.

(** A text that starts like a value: with a quote, a bracket or a brace. *)
Definition starts_value (s : string) : Prop :=
  ∃ c r, s = String c r ∧ (c = "034" ∨ c = "[" ∨ c = "{")%char.

(** The scanner reads the text of [t] back as [t], at any depth of
    indentation, with enough fuel and whatever follows the text. *)
Definition reads_back (t : tree) : Prop :=
  ∀ level fuel rest, need t ≤ fuel →
    scan_value fuel (encode level t +:+ rest) = Parsed t rest.

(** * Properties *)

(** ** The embedding on small inputs *)

Section Examples.

Example subscript_missing_key :
  fst (create_curator_prompt (VRef 0) (World [ODict [("objects", VStr "")]] []))
  = Raise (KeyError "scene_name").
Proof. reflexivity. Qed.

Example subscript_of_a_list :
  fst (create_curator_prompt (VRef 0) (World [OList []] [])) = Raise TypeError.
Proof. reflexivity. Qed.

Example join_of_a_str :
  fst (str_join ", " (VStr "abc") (World [] [])) = Ok "a, b, c".
Proof. reflexivity. Qed.

Example join_of_a_nested_list :
  fst (str_join ", " (VRef 1) (World [OList []; OList [VStr "a"; VRef 0]] []))
  = Raise TypeError.
Proof. reflexivity. Qed.

Example lines_of_text : lines ("a" +:+ nl +:+ nl +:+ "- b" +:+ nl) = ["a"; ""; "- b"; ""].
Proof. reflexivity. Qed.

Example dict_display_repeated_key :
  dict_of_pairs [("a", VStr "1"); ("b", VStr "2"); ("a", VStr "3")]
  = [("a", VStr "3"); ("b", VStr "2")].
Proof. reflexivity. Qed.

Example encode_nested :
  encode 0 (TDict [("k", TList [TStr ("a" +:+ nl); TList []]); ("e", TDict [])])
  = "{" +:+ nl +:+ "  " +:+ dq +:+ "k" +:+ dq +:+ ": [" +:+ nl
    +:+ "    " +:+ dq +:+ "a\n" +:+ dq +:+ "," +:+ nl
    +:+ "    []" +:+ nl
    +:+ "  ]," +:+ nl
    +:+ "  " +:+ dq +:+ "e" +:+ dq +:+ ": {}" +:+ nl
    +:+ "}".
Proof. reflexivity. Qed.

Example decode_trailing_comma : decode "[[],]" = Malformed.
Proof. reflexivity. Qed.

Example decode_number : decode "[1]" = Unsupported.
Proof. reflexivity. Qed.

Example dumps_of_a_cycle :
  fst (json_dumps (VRef 0) (World [OList [VRef 0]] [])) = Raise ValueError.
Proof. reflexivity. Qed.

Example await_inside_async_def : refused AtModule (Def true [Simple true]) = false.
Proof. reflexivity. Qed.

Example await_inside_plain_def : refused AtModule (Def false [Simple true]) = true.
Proof. reflexivity. Qed.

Example await_in_main_py : existsb (refused AtModule) main_py = true.
Proof. reflexivity. Qed.

End Examples.

(** ** Text *)

Section Text.

Lemma append_nil_r (s : string) : s +:+ "" = s.
Proof. induction s as [|c s IH]; [reflexivity|]. change (String c (s +:+ "") = String c s). by rewrite IH. Qed.

Lemma append_assoc (a b c : string) : (a +:+ b) +:+ c = a +:+ b +:+ c.
Proof.
  induction a as [|x a IH]; [reflexivity|].
  change (String x ((a +:+ b) +:+ c) = String x (a +:+ b +:+ c)). by rewrite IH.
Qed.

Lemma substring_refl (s : string) : Substring s s.
Proof. exists "", "". by rewrite append_nil_r. Qed.

Lemma substring_app_l (n a b : string) : Substring n a → Substring n (a +:+ b).
Proof.
  intros (x & y & ->). exists x, (y +:+ b).
  by rewrite !append_assoc.
Qed.

Lemma substring_app_r (n a b : string) : Substring n b → Substring n (a +:+ b).
Proof.
  intros (x & y & ->). exists (a +:+ x), y.
  by rewrite !append_assoc.
Qed.

Lemma prefix_append (a b : string) : String.prefix a b = true → ∃ r, b = a +:+ r.
Proof.
  revert a. induction b as [|c b IH]; intros [|d a] H; simpl in H; try done.
  - by exists "".
  - by exists (String c b).
  - destruct (ascii_dec d c) as [->|]; [|done].
    destruct (IH _ H) as [r ->]. by exists r.
Qed.

Lemma contains_sound (n h : string) : contains n h = true → Substring n h.
Proof.
  induction h as [|c h IH]; cbn [contains]; intros H.
  - rewrite orb_false_r in H. destruct (prefix_append _ _ H) as [r ->]. by exists "", r.
  - apply orb_true_iff in H as [H|H].
    + destruct (prefix_append _ _ H) as [r Hr]. exists "", r. by rewrite Hr.
    + destruct (IH H) as (x & y & ->). by exists (String c x), y.
Qed.

Lemma substring_concat (sep n x : string) (l : list string) :
  In x l → Substring n x → Substring n (String.concat sep l).
Proof.
  induction l as [|y l IH]; [done|]. intros [->|Hin] Hn.
  - destruct l; simpl; [done|]. by apply substring_app_l.
  - destruct l as [|z l]; [done|].
    change (Substring n (y +:+ sep +:+ String.concat sep (z :: l))).
    by do 2 apply substring_app_r; apply IH.
Qed.

Lemma lines_nonempty (s : string) : lines s ≠ [].
Proof. induction s as [|c s IH]; simpl; [done|]. destruct (Ascii.eqb c _); [done|]. by destruct (lines s). Qed.

Lemma lines_break (a b : string) : lines (a +:+ nl +:+ b) = lines a ++ lines b.
Proof.
  induction a as [|c a IH]; [reflexivity|].
  change (lines (String c (a +:+ nl +:+ b)) = lines (String c a) ++ lines b).
  simpl. destruct (Ascii.eqb c _).
  - by rewrite IH.
  - rewrite IH. pose proof (lines_nonempty a). by destruct (lines a).
Qed.

Lemma lines_single (s : string) : no_newline s = true → lines s = [s].
Proof.
  induction s as [|c s IH]; simpl; [done|].
  destruct (Ascii.eqb c _); simpl; [done|]. intros H. by rewrite IH.
Qed.

Lemma no_newline_app (a b : string) :
  no_newline (a +:+ b) = no_newline a && no_newline b.
Proof.
  induction a as [|c a IH]; [reflexivity|].
  change (no_newline (String c (a +:+ b)) = no_newline (String c a) && no_newline b).
  simpl. by rewrite IH, andb_assoc.
Qed.

Lemma lines_concat (ls : list string) :
  ls ≠ [] → lines (String.concat nl ls) = flat_map lines ls.
Proof.
  induction ls as [|x ls IH]; [done|]. intros _.
  destruct ls as [|y ls]; simpl.
  - by rewrite app_nil_r.
  - change (lines (x +:+ nl +:+ String.concat nl (y :: ls)) = lines x ++ flat_map lines (y :: ls)).
    rewrite lines_break. by rewrite IH.
Qed.

Lemma flat_map_lines_single (ls : list string) :
  forallb no_newline ls = true → flat_map lines ls = ls.
Proof.
  induction ls as [|x ls IH]; simpl; [done|].
  intros [Hx Hls]%andb_true_iff. by rewrite lines_single, IH.
Qed.

Lemma no_newline_concat (sep : string) (ls : list string) :
  no_newline sep = true → forallb no_newline ls = true →
  no_newline (String.concat sep ls) = true.
Proof.
  intros Hsep. induction ls as [|x ls IH]; simpl; [done|].
  intros [Hx Hls]%andb_true_iff. destruct ls as [|y ls]; [done|].
  rewrite !no_newline_app, Hx, Hsep. by rewrite IH.
Qed.

End Text.

(** ** Running computations *)

Section Run.

Lemma bind_ok {A B} (m : M A) (f : A → M B) (w w' : world) (a : A) :
  m w = (Ok a, w') → (m ≫= f) w = f a w'.
Proof. intros H. unfold mbind, M_bind. by rewrite H. Qed.

Lemma readonly_ret {A} (a : A) : readonly (mret a).
Proof. by intros w. Qed.

Lemma readonly_raise {A} (e : exn) : readonly (@raise A e).
Proof. by intros w. Qed.

Lemma readonly_unmodelled {A} : readonly (@unmodelled A).
Proof. by intros w. Qed.

Lemma readonly_deref (l : loc) : readonly (deref l).
Proof. intros w. unfold deref. by destruct (heap w !! l). Qed.

Lemma readonly_bind {A B} (m : M A) (f : A → M B) :
  readonly m → (∀ a, readonly (f a)) → readonly (m ≫= f).
Proof.
  intros Hm Hf w. unfold mbind, M_bind. specialize (Hm w).
  destruct (m w) as [[a|e|] w']; simpl in *; subst; [apply Hf|done..].
Qed.

Lemma readonly_mapM {A B} (f : A → M B) (l : list A) :
  (∀ a, readonly (f a)) → readonly (mapM f l).
Proof.
  intros Hf. induction l as [|x l IH]; simpl.
  - apply readonly_ret.
  - apply readonly_bind; [done|]. intros y.
    apply readonly_bind; [done|]. intros k. apply readonly_ret.
Qed.

Lemma readonly_subscript (x : val) (k : string) : readonly (subscript x k).
Proof.
  destruct x as [s|l]; simpl; [apply readonly_raise|].
  apply readonly_bind; [apply readonly_deref|].
  intros [xs|d]; [apply readonly_raise|].
  destruct (dict_get d k); [apply readonly_ret | apply readonly_raise].
Qed.

Lemma readonly_iterate (x : val) : readonly (iterate x).
Proof.
  destruct x as [s|l]; simpl; [apply readonly_ret|].
  apply readonly_bind; [apply readonly_deref|].
  intros [xs|d]; apply readonly_ret.
Qed.

Lemma readonly_format_value (x : val) : readonly (format_value x).
Proof. destruct x; [apply readonly_ret | apply readonly_unmodelled]. Qed.

Lemma readonly_str_join (sep : string) (x : val) : readonly (str_join sep x).
Proof.
  apply readonly_bind; [apply readonly_iterate|]. intros items.
  apply readonly_bind; [|intros; apply readonly_ret].
  apply readonly_mapM. intros [s|l]; [apply readonly_ret | apply readonly_raise].
Qed.

Create HintDb readonly.
#[local] Hint Resolve readonly_ret readonly_raise readonly_unmodelled readonly_deref
  readonly_subscript readonly_iterate readonly_format_value readonly_str_join
  readonly_mapM : readonly.

Ltac readonly_steps :=
  repeat (first [ solve [auto with readonly] | apply readonly_bind; [|intros ?] ]).

Lemma readonly_describe_object (obj : val) : readonly (describe_object obj).
Proof. unfold describe_object. readonly_steps. Qed.

Lemma readonly_create_curator_prompt (scene : val) :
  readonly (create_curator_prompt scene).
Proof.
  unfold create_curator_prompt. readonly_steps.
  apply readonly_mapM, readonly_describe_object.
Qed.

(** Reading a conforming value: each primitive returns what the view says
    and changes nothing. *)
Lemma subscript_read (v : val) (k : string) (w : world) d x :
  read_dict (heap w) v = Some d → dict_get d k = Some x →
  subscript v k w = (Ok x, w).
Proof.
  destruct v as [s|l]; simpl; [done|]. intros Hd Hk.
  unfold mbind, M_bind, deref.
  destruct (heap w !! l) as [[xs|d']|]; simplify_eq. by rewrite Hk.
Qed.

Lemma iterate_read (v : val) (w : world) xs :
  read_list (heap w) v = Some xs → iterate v w = (Ok xs, w).
Proof.
  destruct v as [s|l]; simpl; [done|]. intros Hl.
  unfold mbind, M_bind, deref.
  by destruct (heap w !! l) as [[xs'|d']|]; simplify_eq.
Qed.

Lemma format_value_read (v : val) (w : world) s :
  read_str v = Some s → format_value v w = (Ok s, w).
Proof. destruct v; simpl; intros; by simplify_eq. Qed.

Lemma mapM_ok {A B C} (f : A → M B) (g : A → option C) (r : C → B) (w : world) :
  (∀ x c, g x = Some c → f x w = (Ok (r c), w)) →
  ∀ xs cs, mapM g xs = Some cs → mapM f xs w = (Ok (map r cs), w).
Proof.
  intros Hf xs cs H%mapM_Some_1.
  induction H as [|x c xs cs Hx _ IH]; [reflexivity|].
  change (mapM f (x :: xs)) with (y ← f x; k ← mapM f xs; mret (y :: k)).
  rewrite (bind_ok _ _ _ _ _ (Hf _ _ Hx)).
  by rewrite (bind_ok _ _ _ _ _ IH).
Qed.

Lemma join_items_read (xs : list val) (w : world) ss :
  mapM read_str xs = Some ss →
  mapM (fun v => match v with
                 | VStr s => mret s
                 | VRef _ => raise TypeError
                 end) xs w = (Ok ss, w).
Proof.
  intros H. rewrite <- (map_id ss).
  apply mapM_ok with (g := read_str); [|done].
  intros [s|l] c Hc; by simplify_eq/=.
Qed.

Lemma str_join_read (sep : string) (v : val) (w : world) xs ss :
  read_list (heap w) v = Some xs → mapM read_str xs = Some ss →
  str_join sep v w = (Ok (String.concat sep ss), w).
Proof.
  intros Hl Hs. unfold str_join.
  rewrite (bind_ok _ _ _ _ _ (iterate_read _ _ _ Hl)).
  by rewrite (bind_ok _ _ _ _ _ (join_items_read _ _ _ Hs)).
Qed.

Lemma field_read (v : val) (k : string) (w : world) d s :
  read_dict (heap w) v = Some d → dict_get d k ≫= read_str = Some s →
  (subscript v k ≫= format_value) w = (Ok s, w).
Proof.
  intros Hd Hk. destruct (dict_get d k) as [x|] eqn:E; [|done].
  rewrite (bind_ok _ _ _ _ _ (subscript_read _ _ _ _ _ Hd E)).
  by apply format_value_read.
Qed.

Lemma nested_field_read (v : val) (k1 k2 : string) (w : world) d x d' s :
  read_dict (heap w) v = Some d → dict_get d k1 = Some x →
  read_dict (heap w) x = Some d' → dict_get d' k2 ≫= read_str = Some s →
  ((subscript v k1 ≫= fun l => subscript l k2) ≫= format_value) w = (Ok s, w).
Proof.
  intros Hd Hx Hd' Hs. destruct (dict_get d' k2) as [y|] eqn:E; [|done].
  erewrite bind_ok; [by apply format_value_read|].
  rewrite (bind_ok _ _ _ _ _ (subscript_read _ _ _ _ _ Hd Hx)).
  by apply subscript_read with d'.
Qed.

Lemma describe_object_read (v : val) (w : world) o :
  read_object (heap w) v = Some o →
  describe_object v w = (Ok (render_object o), w).
Proof.
  unfold read_object. intros H.
  destruct (read_dict (heap w) v) as [d|] eqn:Hd; [|done]. simpl in H.
  destruct (dict_get d "name" ≫= read_str) as [n|] eqn:Hn; [|done]. simpl in H.
  destruct (dict_get d "material" ≫= read_str) as [m|] eqn:Hm; [|done]. simpl in H.
  destruct (dict_get d "position" ≫= read_str) as [p|] eqn:Hp; [|done]. simpl in H.
  destruct (dict_get d "tags") as [tv|] eqn:Ht; [|done]. simpl in H.
  destruct (read_list (heap w) tv) as [xs|] eqn:Hxs; [|done]. simpl in H.
  destruct (mapM read_str xs) as [ss|] eqn:Hss; [|done]. simpl in H.
  simplify_eq. unfold describe_object.
  rewrite (bind_ok _ _ _ _ _ (field_read _ _ _ _ _ Hd Hn)).
  rewrite (bind_ok _ _ _ _ _ (field_read _ _ _ _ _ Hd Hm)).
  rewrite (bind_ok _ _ _ _ _ (field_read _ _ _ _ _ Hd Hp)).
  erewrite bind_ok; [reflexivity|].
  rewrite (bind_ok _ _ _ _ _ (subscript_read _ _ _ _ _ Hd Ht)).
  by apply str_join_read with xs.
Qed.

Lemma describe_objects_read (vs : list val) (w : world) os :
  mapM (read_object (heap w)) vs = Some os →
  mapM describe_object vs w = (Ok (map render_object os), w).
Proof. apply mapM_ok. intros v o. apply describe_object_read. Qed.

(** On a conforming scene the function returns the prompt the specification's
    [compose] defines, and the store and standard output stay as they were. *)
Lemma create_curator_prompt_read (v : val) (w : world) sc :
  read_scene (heap w) v = Some sc →
  create_curator_prompt v w = (Ok (compose sc), w).
Proof.
  unfold read_scene. intros H.
  destruct (read_dict (heap w) v) as [d|] eqn:Hd; [|done]. simpl in H.
  destruct (dict_get d "scene_name" ≫= read_str) as [n|] eqn:Hn; [|done]. simpl in H.
  destruct (dict_get d "overall_style" ≫= read_str) as [s|] eqn:Hs; [|done]. simpl in H.
  destruct (dict_get d "lighting") as [lv|] eqn:Hl; [|done]. simpl in H.
  destruct (read_lighting (heap w) lv) as [li|] eqn:Hli; [|done]. simpl in H.
  destruct (dict_get d "objects") as [ov|] eqn:Ho; [|done]. simpl in H.
  destruct (read_list (heap w) ov) as [vs|] eqn:Hvs; [|done]. simpl in H.
  destruct (mapM (read_object (heap w)) vs) as [os|] eqn:Hos; [|done]. simpl in H.
  simplify_eq. unfold read_lighting in Hli.
  destruct (read_dict (heap w) lv) as [ld|] eqn:Hld; [|done]. simpl in Hli.
  destruct (dict_get ld "type" ≫= read_str) as [lk|] eqn:Hlk; [|done]. simpl in Hli.
  destruct (dict_get ld "source" ≫= read_str) as [ls|] eqn:Hls; [|done]. simpl in Hli.
  simplify_eq. unfold create_curator_prompt.
  erewrite bind_ok; [|rewrite (bind_ok _ _ _ _ _ (subscript_read _ _ _ _ _ Hd Ho));
                      by apply iterate_read].
  rewrite (bind_ok _ _ _ _ _ (describe_objects_read _ _ _ Hos)).
  rewrite (bind_ok _ _ _ _ _ (field_read _ _ _ _ _ Hd Hn)).
  rewrite (bind_ok _ _ _ _ _ (field_read _ _ _ _ _ Hd Hs)).
  rewrite (bind_ok _ _ _ _ _ (nested_field_read _ _ _ _ _ _ _ _ Hd Hl Hld Hlk)).
  rewrite (bind_ok _ _ _ _ _ (nested_field_read _ _ _ _ _ _ _ _ Hd Hl Hld Hls)).
  reflexivity.
Qed.

End Run.

(** ** The prompt composer *)

Section Composer.

Lemma loft_scene_read : read_scene (heap loft_world) loft_ref = Some loft_scene.
Proof. vm_compute. reflexivity. Qed.

Lemma bare_scene_read : read_scene bare_heap (VRef 2) = Some bare_scene.
Proof. vm_compute. reflexivity. Qed.

(** C1: on a scene with all fields present, the object block interpolated
    into the prompt is the newline-join of one rendered line per object, in
    the order of the objects sequence (the i-th line renders the i-th
    object, nothing is dropped or merged), and each line has the form
    "- {displayName}: Made of {material}. Positioned at: {position}. Tags:
    {tags joined by ", "}." *)
Theorem object_block_in_input_order (v : val) (w : world) (sc : SceneDescription) :
  read_scene (heap w) v = Some sc →
  ∃ rendered : list string,
    fst (create_curator_prompt v w) =
      Ok (prompt_text (sc_name sc) (sc_style sc)
            (l_kind (sc_lighting sc)) (l_source (sc_lighting sc))
            (String.concat nl rendered))
    ∧ length rendered = length (sc_objects sc)
    ∧ ∀ (i : nat) (o : SceneObject), sc_objects sc !! i = Some o →
        rendered !! i =
          Some ("- " +:+ o_displayName o +:+ ": Made of " +:+ o_material o
                +:+ ". Positioned at: " +:+ o_position o
                +:+ ". Tags: " +:+ String.concat ", " (o_tags o) +:+ ".").
Proof.
  intros H. exists (map render_object (sc_objects sc)).
  rewrite (create_curator_prompt_read _ _ _ H). split; [reflexivity|].
  split; [apply length_map|].
  intros i o Hi. change (map render_object) with (fmap (M:=list) render_object).
  by rewrite list_lookup_fmap, Hi.
Qed.

Lemma object_block_in_input_order_loft :
  read_scene (heap loft_world) loft_ref = Some loft_scene ∧
  ∃ rendered : list string,
    fst (create_curator_prompt loft_ref loft_world) =
      Ok (prompt_text (sc_name loft_scene) (sc_style loft_scene)
            (l_kind (sc_lighting loft_scene)) (l_source (sc_lighting loft_scene))
            (String.concat nl rendered))
    ∧ length rendered = length (sc_objects loft_scene)
    ∧ ∀ (i : nat) (o : SceneObject), sc_objects loft_scene !! i = Some o →
        rendered !! i =
          Some ("- " +:+ o_displayName o +:+ ": Made of " +:+ o_material o
                +:+ ". Positioned at: " +:+ o_position o
                +:+ ". Tags: " +:+ String.concat ", " (o_tags o) +:+ ".").
Proof.
  split; [vm_compute; reflexivity|].
  apply (object_block_in_input_order loft_ref loft_world loft_scene).
  vm_compute; reflexivity.
Defined.

(** C2: for the loft scene of the script, the prompt holds the Leather Sofa
    line, the scene name and the style verbatim; the sofa line stands in the
    prompt behind the four spaces of the template's indentation. *)
Theorem loft_prompt_contents :
  ∃ p : string,
    fst ((scene ← build scene_data; create_curator_prompt scene) (World [] [])) = Ok p
    ∧ Substring "- Leather Sofa: Made of Distressed brown leather. Positioned at: Center of the room, facing the windows. Tags: seating, main furniture, comfortable." p
    ∧ Substring "Modern Loft Living Room" p
    ∧ Substring "Minimalist, Industrial" p
    ∧ In "    - Leather Sofa: Made of Distressed brown leather. Positioned at: Center of the room, facing the windows. Tags: seating, main furniture, comfortable." (lines p).
Proof.
  exists (compose loft_scene).
  split; [vm_compute; reflexivity|].
  repeat split; try (apply contains_sound; vm_compute; reflexivity).
  apply nth_error_In with 9. vm_compute. reflexivity.
Qed.

(** C4: with an empty objects sequence the call succeeds, the interpolated
    object block is the empty string, and the prompt is the template with
    nothing in the block's place: its lines above the block, the bare
    indentation where the block would stand, and its lines below. *)
Theorem empty_objects_empty_block (v : val) (w : world) (sc : SceneDescription) :
  read_scene (heap w) v = Some sc →
  sc_objects sc = [] →
  create_curator_prompt v w =
    (Ok (prompt_text (sc_name sc) (sc_style sc)
           (l_kind (sc_lighting sc)) (l_source (sc_lighting sc)) ""), w)
  ∧ prompt_text (sc_name sc) (sc_style sc)
      (l_kind (sc_lighting sc)) (l_source (sc_lighting sc)) ""
    = String.concat nl (lines_before_block sc ++ ["    "] ++ lines_after_block).
Proof.
  intros H Hobjs. rewrite (create_curator_prompt_read _ _ _ H).
  unfold compose. by rewrite Hobjs.
Qed.

Lemma empty_objects_empty_block_bare :
  read_scene bare_heap (VRef 2) = Some bare_scene ∧
  sc_objects bare_scene = [] ∧
  (create_curator_prompt (VRef 2) (World bare_heap []) =
     (Ok (prompt_text "Empty Room" "Bare" "Dim" "One candle" ""), World bare_heap [])
   ∧ prompt_text "Empty Room" "Bare" "Dim" "One candle" ""
     = String.concat nl (lines_before_block bare_scene ++ ["    "] ++ lines_after_block)).
Proof.
  split; [vm_compute; reflexivity|]. split; [reflexivity|].
  apply (empty_objects_empty_block (VRef 2) (World bare_heap []) bare_scene).
  - vm_compute; reflexivity.
  - reflexivity.
Defined.

(** C5: on every input that conforms to the data model the call returns a
    prompt: no exception is raised, nothing is written to standard output
    and no object of the store is changed or created. *)
Theorem conforming_scene_no_error_no_effect (v : val) (w : world) (sc : SceneDescription) :
  read_scene (heap w) v = Some sc →
  ∃ p : string, create_curator_prompt v w = (Ok p, w).
Proof. intros H. exists (compose sc). by apply create_curator_prompt_read. Qed.

Lemma conforming_scene_no_error_no_effect_loft :
  read_scene (heap loft_world) loft_ref = Some loft_scene ∧
  ∃ p : string, create_curator_prompt loft_ref loft_world = (Ok p, loft_world).
Proof.
  split; [vm_compute; reflexivity|].
  apply (conforming_scene_no_error_no_effect loft_ref loft_world loft_scene).
  vm_compute; reflexivity.
Defined.

(** C6: a call leaves the store as it was, so the scene read before the
    call is the scene read after it (fields, objects and tags in the same
    order), and the returned prompt is the same for any two calls on scenes
    that hold the same data, wherever they are stored. *)
Theorem input_unchanged_output_determined (v : val) (w : world) (sc : SceneDescription) :
  read_scene (heap w) v = Some sc →
  snd (create_curator_prompt v w) = w
  ∧ read_scene (heap (snd (create_curator_prompt v w))) v = Some sc
  ∧ ∀ (v' : val) (w' : world), read_scene (heap w') v' = Some sc →
      fst (create_curator_prompt v' w') = fst (create_curator_prompt v w).
Proof.
  intros H. rewrite (readonly_create_curator_prompt v w).
  split; [done|]. split; [done|]. intros v' w' H'.
  by rewrite (create_curator_prompt_read _ _ _ H), (create_curator_prompt_read _ _ _ H').
Qed.

Lemma input_unchanged_output_determined_loft :
  read_scene (heap loft_world) loft_ref = Some loft_scene ∧
  (snd (create_curator_prompt loft_ref loft_world) = loft_world
   ∧ read_scene (heap (snd (create_curator_prompt loft_ref loft_world))) loft_ref
     = Some loft_scene
   ∧ ∀ (v' : val) (w' : world), read_scene (heap w') v' = Some loft_scene →
       fst (create_curator_prompt v' w') = fst (create_curator_prompt loft_ref loft_world)).
Proof.
  split; [vm_compute; reflexivity|].
  apply (input_unchanged_output_determined loft_ref loft_world loft_scene).
  vm_compute; reflexivity.
Defined.

Ltac in_template_line n :=
  solve [ eapply substring_concat;
          [ apply nth_error_In with n; reflexivity
          | apply contains_sound; vm_compute; reflexivity ] ].

(** C7: on a scene with all fields present the prompt holds the three key
    names, bare and in double quotes, and the closing sentence that asks for
    a single valid JSON object and nothing else. *)
Theorem template_markers_present (v : val) (w : world) (sc : SceneDescription) :
  read_scene (heap w) v = Some sc →
  ∃ p : string,
    fst (create_curator_prompt v w) = Ok p
    ∧ Substring "title" p ∧ Substring "narrative" p ∧ Substring "design_suggestions" p
    ∧ Substring (dq +:+ "title" +:+ dq) p
    ∧ Substring (dq +:+ "narrative" +:+ dq) p
    ∧ Substring (dq +:+ "design_suggestions" +:+ dq) p
    ∧ Substring "Your final output must be a single, valid JSON object and nothing else. Do not include any explanatory text before or after the JSON." p.
Proof.
  intros H. exists (compose sc).
  rewrite (create_curator_prompt_read _ _ _ H). split; [reflexivity|].
  unfold compose, prompt_text.
  repeat split; first [ in_template_line 12 | in_template_line 23 ].
Qed.

Lemma template_markers_present_bare :
  read_scene bare_heap (VRef 2) = Some bare_scene ∧
  ∃ p : string,
    fst (create_curator_prompt (VRef 2) (World bare_heap [])) = Ok p
    ∧ Substring "title" p ∧ Substring "narrative" p ∧ Substring "design_suggestions" p
    ∧ Substring (dq +:+ "title" +:+ dq) p
    ∧ Substring (dq +:+ "narrative" +:+ dq) p
    ∧ Substring (dq +:+ "design_suggestions" +:+ dq) p
    ∧ Substring "Your final output must be a single, valid JSON object and nothing else. Do not include any explanatory text before or after the JSON." p.
Proof.
  split; [vm_compute; reflexivity|].
  apply (template_markers_present (VRef 2) (World bare_heap []) bare_scene).
  vm_compute; reflexivity.
Defined.

End Composer.

(** ** Lines of the prompt that start with a dash *)

Section DashLines.

Lemma prefix_self_append (a b : string) : String.prefix a (a +:+ b) = true.
Proof.
  induction a as [|c a IH]; [by destruct b|].
  change (String.prefix (String c a) (String c (a +:+ b)) = true).
  simpl. by destruct (ascii_dec c c).
Qed.

Lemma concat_indent (a x : string) (l : list string) :
  a +:+ String.concat nl (x :: l) = String.concat nl ((a +:+ x) :: l).
Proof. destruct l; simpl; [done|]. by rewrite append_assoc. Qed.

Lemma no_newline_render_object (o : SceneObject) :
  single_line_object o = true → no_newline (render_object o) = true.
Proof.
  unfold single_line_object.
  intros [[[Hn Hm]%andb_true_iff Hp]%andb_true_iff Ht]%andb_true_iff.
  unfold render_object, object_line.
  rewrite !no_newline_app, Hn, Hm, Hp.
  by rewrite (no_newline_concat ", " _ eq_refl Ht).
Qed.

Lemma no_newline_render_objects (os : list SceneObject) :
  forallb single_line_object os = true →
  forallb no_newline (map render_object os) = true.
Proof.
  induction os as [|o os IH]; cbn [map forallb]; [done|].
  intros [Ho Hos]%andb_true_iff. by rewrite no_newline_render_object, IH.
Qed.

Lemma dash_filter_render_objects (os : list SceneObject) :
  filter (fun l => String.prefix "- " l = true) (map render_object os)
  = map render_object os.
Proof.
  induction os as [|o os IH]; cbn [map]; [done|].
  rewrite filter_cons_True; [by rewrite IH|].
  apply (prefix_self_append "- ").
Qed.

Lemma lines_indented_block (rendered : list string) :
  forallb no_newline rendered = true →
  lines ("    " +:+ String.concat nl rendered) = indented_block rendered.
Proof.
  destruct rendered as [|r rs]; [reflexivity|].
  cbn [forallb]. intros [Hr Hrs]%andb_true_iff.
  rewrite concat_indent, lines_concat by done.
  apply flat_map_lines_single. cbn [forallb indented_block].
  by rewrite no_newline_app, Hr, Hrs.
Qed.

Lemma prompt_lines_split (a b c d e : string) :
  prompt_lines a b c d e
  = firstn 9 (prompt_lines a b c d "") ++ ("    " +:+ e)
      :: skipn 10 (prompt_lines "" "" "" "" "").
Proof. reflexivity. Qed.

(** The prompt, line by line, when no field breaks a line. *)
Lemma lines_compose (sc : SceneDescription) :
  single_line_scene sc = true →
  lines (compose sc)
  = lines_before_block sc
    ++ indented_block (map render_object (sc_objects sc))
    ++ lines_after_block.
Proof.
  unfold single_line_scene.
  intros [[[[Hn Hs]%andb_true_iff Hk]%andb_true_iff Hl]%andb_true_iff Ho]%andb_true_iff.
  unfold compose, prompt_text.
  rewrite lines_concat by done.
  rewrite prompt_lines_split, flat_map_app. cbn [flat_map].
  rewrite (lines_indented_block _ (no_newline_render_objects _ Ho)).
  assert (flat_map lines (skipn 10 (prompt_lines "" "" "" "" "")) = lines_after_block) as ->
    by (by vm_compute).
  fold (lines_before_block sc). rewrite flat_map_lines_single; [done|].
  unfold lines_before_block, prompt_lines. cbn [firstn forallb].
  rewrite !no_newline_app, Hn, Hs, Hk, Hl. reflexivity.
Qed.

Lemma dash_lines_compose (sc : SceneDescription) :
  single_line_scene sc = true →
  dash_lines (compose sc) = map render_object (tail (sc_objects sc)).
Proof.
  intros H. unfold dash_lines. rewrite (lines_compose _ H), !filter_app.
  assert (filter (fun l => String.prefix "- " l = true) (lines_before_block sc) = []) as ->
    by (by vm_compute).
  assert (filter (fun l => String.prefix "- " l = true) lines_after_block = []) as ->
    by (by vm_compute).
  rewrite app_nil_r. cbn [app].
  destruct (sc_objects sc) as [|o os]; [reflexivity|].
  cbn [map indented_block tail].
  rewrite filter_cons_False by (by vm_compute).
  apply dash_filter_render_objects.
Qed.

Lemma render_object_fields (o : SceneObject) :
  Substring (o_displayName o) (render_object o)
  ∧ Substring (o_material o) (render_object o)
  ∧ Substring (o_position o) (render_object o)
  ∧ Substring (String.concat ", " (o_tags o)) (render_object o).
Proof.
  unfold render_object, object_line. repeat split.
  - apply substring_app_r, substring_app_l, substring_refl.
  - do 3 apply substring_app_r. apply substring_app_l, substring_refl.
  - do 5 apply substring_app_r. apply substring_app_l, substring_refl.
  - do 7 apply substring_app_r. apply substring_app_l, substring_refl.
Qed.

(** C3 as stated fails at the loft scene: the scene has five objects, and
    four lines of its prompt start with "- ". *)
Lemma loft_prompt_has_four_dash_lines :
  read_scene (heap loft_world) loft_ref = Some loft_scene
  ∧ length (sc_objects loft_scene) = 5
  ∧ ∃ p : string,
      fst (create_curator_prompt loft_ref loft_world) = Ok p
      ∧ length (dash_lines p) = 4
      ∧ length (dash_lines p) ≠ length (sc_objects loft_scene).
Proof.
  split; [vm_compute; reflexivity|]. split; [reflexivity|].
  exists (compose loft_scene).
  split; [vm_compute; reflexivity|]. split; [vm_compute; reflexivity|].
  vm_compute. discriminate.
Qed.

(** C3, amended: when no text field of the scene holds a line break, the
    prompt consists of the template lines above the block, one line per
    object in input order, and the template lines below; the first object's
    line stands behind the four spaces of the template's indentation, so
    the lines that start with "- " are those of the second to the last
    object (N-1 of them for N >= 1 objects); and every object's line holds
    its displayName, material, position and its tags joined by ", " in
    their order. *)
Theorem dash_lines_are_later_objects (v : val) (w : world) (sc : SceneDescription) :
  read_scene (heap w) v = Some sc →
  single_line_scene sc = true →
  ∃ p : string,
    fst (create_curator_prompt v w) = Ok p
    ∧ lines p = lines_before_block sc
                ++ indented_block (map render_object (sc_objects sc))
                ++ lines_after_block
    ∧ dash_lines p = map render_object (tail (sc_objects sc))
    ∧ length (dash_lines p) = length (sc_objects sc) - 1
    ∧ Forall (fun o =>
          Substring (o_displayName o) (render_object o)
          ∧ Substring (o_material o) (render_object o)
          ∧ Substring (o_position o) (render_object o)
          ∧ Substring (String.concat ", " (o_tags o)) (render_object o))
        (sc_objects sc).
Proof.
  intros H Hsingle. exists (compose sc).
  rewrite (create_curator_prompt_read _ _ _ H). split; [reflexivity|].
  split; [by apply lines_compose|].
  rewrite (dash_lines_compose _ Hsingle). split; [reflexivity|]. split.
  - rewrite length_map. destruct (sc_objects sc); simpl; lia.
  - apply Forall_forall. intros o _. apply render_object_fields.
Qed.

Lemma dash_lines_are_later_objects_loft :
  read_scene (heap loft_world) loft_ref = Some loft_scene ∧
  single_line_scene loft_scene = true ∧
  ∃ p : string,
    fst (create_curator_prompt loft_ref loft_world) = Ok p
    ∧ lines p = lines_before_block loft_scene
                ++ indented_block (map render_object (sc_objects loft_scene))
                ++ lines_after_block
    ∧ dash_lines p = map render_object (tail (sc_objects loft_scene))
    ∧ length (dash_lines p) = length (sc_objects loft_scene) - 1
    ∧ Forall (fun o =>
          Substring (o_displayName o) (render_object o)
          ∧ Substring (o_material o) (render_object o)
          ∧ Substring (o_position o) (render_object o)
          ∧ Substring (String.concat ", " (o_tags o)) (render_object o))
        (sc_objects loft_scene).
Proof.
  split; [vm_compute; reflexivity|]. split; [vm_compute; reflexivity|].
  apply (dash_lines_are_later_objects loft_ref loft_world loft_scene).
  - vm_compute; reflexivity.
  - vm_compute; reflexivity.
Defined.

End DashLines.

(** ** Building objects and reading them back *)

Section Json.

Lemma tree_nested_ind (P : tree → Prop) :
  (∀ s, P (TStr s)) →
  (∀ ts, Forall P ts → P (TList ts)) →
  (∀ kts, Forall (fun kt => P (snd kt)) kts → P (TDict kts)) →
  ∀ t, P t.
Proof.
  intros Hs Hl Hd. fix IH 1. intros [s|ts|kts].
  - apply Hs.
  - apply Hl. induction ts as [|t ts IHts]; constructor; [apply IH | apply IHts].
  - apply Hd. induction kts as [|[k t] kts IHkts]; constructor; [apply IH | apply IHkts].
Qed.

Lemma dict_set_new (acc : list (string * val)) (k : string) (v : val) :
  forallb (fun k' => negb (String.eqb k' k)) (map fst acc) = true →
  dict_set acc k v = acc ++ [(k, v)].
Proof.
  induction acc as [|[k' v'] acc IH]; simpl; [done|].
  intros [Hk Hacc]%andb_true_iff. destruct (String.eqb k' k); [done|].
  by rewrite IH.
Qed.

Lemma distinct_app_cons (ks1 : list string) (k : string) (ks2 : list string) :
  distinct (ks1 ++ k :: ks2) = true →
  forallb (fun k' => negb (String.eqb k' k)) ks1 = true
  ∧ distinct ((ks1 ++ [k]) ++ ks2) = true.
Proof.
  rewrite <- app_assoc. simpl. intros H. split; [|done].
  induction ks1 as [|k1 ks1 IH]; simpl in *; [done|].
  apply andb_true_iff in H as [Hk1 H]. rewrite (IH H), andb_true_r.
  rewrite existsb_app in Hk1. simpl in Hk1.
  destruct (String.eqb k1 k); [|done].
  by rewrite orb_true_r in Hk1.
Qed.

Lemma fold_dict_set_distinct (kvs acc : list (string * val)) :
  distinct (map fst (acc ++ kvs)) = true →
  fold_left (fun d kv => dict_set d (fst kv) (snd kv)) kvs acc = acc ++ kvs.
Proof.
  revert acc. induction kvs as [|[k v] kvs IH]; intros acc H; simpl.
  - by rewrite app_nil_r.
  - rewrite map_app in H. simpl in H.
    apply distinct_app_cons in H as [Hk H].
    rewrite dict_set_new by done.
    rewrite IH; [by rewrite <- app_assoc|].
    by rewrite !map_app.
Qed.

Lemma dict_of_pairs_distinct (kvs : list (string * val)) :
  distinct (map fst kvs) = true → dict_of_pairs kvs = kvs.
Proof. intros H. by apply (fold_dict_set_distinct kvs []). Qed.

Lemma world_eta (w : world) : World (heap w ++ []) (stdout w) = w.
Proof. destruct w. simpl. by rewrite app_nil_r. Qed.

Lemma build_items (ts : list tree) :
  Forall (fun t => wf_tree t = true → ∀ w, ∃ v ext, built t w v ext) ts →
  forallb wf_tree ts = true →
  ∀ w, ∃ vs ext,
    mapM build ts w = (Ok vs, World (heap w ++ ext) (stdout w))
    ∧ list_max (map depth ts) ≤ length ext
    ∧ ∀ fuel more, list_max (map depth ts) ≤ fuel →
        mapM (reify fuel (heap w ++ ext ++ more)) vs = Ok ts.
Proof.
  induction 1 as [|t ts Ht _ IH]; intros Hwf w.
  - exists [], []. rewrite world_eta. by repeat split.
  - cbn [forallb] in Hwf. apply andb_true_iff in Hwf as [Hwf1 Hwf2].
    destruct (Ht Hwf1 w) as (v & ext1 & Hb1 & Hd1 & Hr1).
    destruct (IH Hwf2 (World (heap w ++ ext1) (stdout w))) as (vs & ext2 & Hb2 & Hd2 & Hr2).
    cbn [heap stdout] in *.
    exists (v :: vs), (ext1 ++ ext2). split; [|split].
    + change (mapM build (t :: ts)) with (y ← build t; k ← mapM build ts; mret (y :: k)).
      rewrite (bind_ok _ _ _ _ _ Hb1), (bind_ok _ _ _ _ _ Hb2).
      by rewrite app_assoc.
    + change (list_max (map depth (t :: ts)))
        with (Nat.max (depth t) (list_max (map depth ts))).
      rewrite length_app. lia.
    + intros fuel more Hfuel.
      change (list_max (map depth (t :: ts)))
        with (Nat.max (depth t) (list_max (map depth ts))) in Hfuel.
      change (mapM (reify fuel (heap w ++ (ext1 ++ ext2) ++ more)) (v :: vs))
        with (y ← reify fuel (heap w ++ (ext1 ++ ext2) ++ more) v;
              k ← mapM (reify fuel (heap w ++ (ext1 ++ ext2) ++ more)) vs;
              mret (y :: k)).
      rewrite <- (app_assoc ext1 ext2 more), Hr1 by lia.
      rewrite (app_assoc (heap w) ext1 (ext2 ++ more)), Hr2 by lia.
      reflexivity.
Qed.

Lemma build_entries (kts : list (string * tree)) :
  Forall (fun kt => wf_tree (snd kt) = true → ∀ w, ∃ v ext, built (snd kt) w v ext) kts →
  forallb (fun kt => wf_tree (snd kt)) kts = true →
  ∀ w, ∃ kvs ext,
    mapM (fun kt => v ← build (snd kt); mret (fst kt, v)) kts w
      = (Ok kvs, World (heap w ++ ext) (stdout w))
    ∧ map fst kvs = map fst kts
    ∧ list_max (map (fun kt => depth (snd kt)) kts) ≤ length ext
    ∧ ∀ fuel more, list_max (map (fun kt => depth (snd kt)) kts) ≤ fuel →
        mapM (fun kv => t ← reify fuel (heap w ++ ext ++ more) (snd kv); mret (fst kv, t)) kvs
          = Ok kts.
Proof.
  induction 1 as [|[k t] kts Ht _ IH]; intros Hwf w.
  - exists [], []. rewrite world_eta. by repeat split.
  - cbn [forallb snd] in Hwf. apply andb_true_iff in Hwf as [Hwf1 Hwf2].
    cbn [snd] in Ht.
    destruct (Ht Hwf1 w) as (v & ext1 & Hb1 & Hd1 & Hr1).
    destruct (IH Hwf2 (World (heap w ++ ext1) (stdout w))) as (kvs & ext2 & Hb2 & Hk2 & Hd2 & Hr2).
    cbn [heap stdout] in *.
    exists ((k, v) :: kvs), (ext1 ++ ext2). split; [|split; [|split]].
    + change (mapM ?f ((k, t) :: kts))
        with (y ← (v ← build t; mret (k, v)); r ← mapM f kts; mret (y :: r)).
      erewrite bind_ok; [|by rewrite (bind_ok _ _ _ _ _ Hb1)].
      rewrite (bind_ok _ _ _ _ _ Hb2).
      by rewrite app_assoc.
    + cbn [map fst]. by rewrite Hk2.
    + change (list_max (map ?f ((k, t) :: kts)))
        with (Nat.max (depth t) (list_max (map f kts))).
      rewrite length_app. lia.
    + intros fuel more Hfuel.
      change (list_max (map ?f ((k, t) :: kts)))
        with (Nat.max (depth t) (list_max (map f kts))) in Hfuel.
      change (mapM ?f ((k, v) :: kvs))
        with (y ← (t ← reify fuel (heap w ++ (ext1 ++ ext2) ++ more) v; mret (k, t));
              r ← mapM f kvs; mret (y :: r)).
      rewrite <- (app_assoc ext1 ext2 more), Hr1 by lia.
      rewrite (app_assoc (heap w) ext1 (ext2 ++ more)), Hr2 by lia.
      reflexivity.
Qed.

Lemma lookup_new (h ext more : list obj) (o : obj) :
  (h ++ (ext ++ [o]) ++ more) !! length (h ++ ext) = Some o.
Proof.
  rewrite <- (app_assoc ext [o] more), (app_assoc h ext ([o] ++ more)).
  by apply list_lookup_middle.
Qed.

Lemma build_spec (t : tree) :
  wf_tree t = true → ∀ w, ∃ v ext, built t w v ext.
Proof.
  induction t as [s|ts IH|kts IH] using tree_nested_ind; intros Hwf w.
  - exists (VStr s), []. unfold built. simpl. rewrite world_eta.
    repeat split; [lia|]. by intros [|fuel].
  - cbn [wf_tree] in Hwf.
    destruct (build_items ts IH Hwf w) as (vs & ext & Hb & Hd & Hr).
    exists (VRef (length (heap w ++ ext))), (ext ++ [OList vs]). split; [|split].
    + cbn [build]. rewrite (bind_ok _ _ _ _ _ Hb). unfold new. cbn [heap stdout].
      by rewrite app_assoc.
    + cbn [depth]. rewrite length_app. simpl. lia.
    + intros [|fuel] more Hfuel; cbn [depth] in Hfuel; [lia|].
      cbn [reify]. rewrite lookup_new.
      rewrite <- (app_assoc ext [OList vs] more), Hr by lia. reflexivity.
  - cbn [wf_tree] in Hwf. apply andb_true_iff in Hwf as [Hkeys Hwf].
    destruct (build_entries kts IH Hwf w) as (kvs & ext & Hb & Hk & Hd & Hr).
    exists (VRef (length (heap w ++ ext))), (ext ++ [ODict kvs]). split; [|split].
    + cbn [build]. rewrite (bind_ok _ _ _ _ _ Hb). unfold new. cbn [heap stdout].
      rewrite dict_of_pairs_distinct by (by rewrite Hk).
      by rewrite app_assoc.
    + cbn [depth]. rewrite length_app. simpl. lia.
    + intros [|fuel] more Hfuel; cbn [depth] in Hfuel; [lia|].
      cbn [reify]. rewrite lookup_new.
      rewrite <- (app_assoc ext [ODict kvs] more), Hr by lia. reflexivity.
Qed.

(** Serializing a freshly built value gives the text of its display. *)
Lemma json_dumps_build (t : tree) (w : world) :
  wf_tree t = true →
  ∃ ext, (build t ≫= json_dumps) w
         = (Ok (encode 0 t), World (heap w ++ ext) (stdout w)).
Proof.
  intros Hwf. destruct (build_spec t Hwf w) as (v & ext & Hb & Hd & Hr).
  exists ext. rewrite (bind_ok _ _ _ _ _ Hb). unfold json_dumps. cbn [heap].
  specialize (Hr (S (length (heap w ++ ext))) []).
  rewrite app_nil_r in Hr. rewrite Hr; [done|].
  rewrite length_app. lia.
Qed.

End Json.

(** ** The mock content and the script *)

Section Script.

Lemma print_bind {B} (s : string) (f : unit → M B) (w : world) :
  (print s ≫= f) w = f tt (World (heap w) (stdout w ++ [s +:+ nl])).
Proof. reflexivity. Qed.

Lemma mock_response_wf : wf_tree mock_response = true.
Proof. vm_compute. reflexivity. Qed.

Lemma mock_response_decode :
  decode (encode 0 mock_response) = Parsed mock_response "".
Proof. vm_compute. reflexivity. Qed.

(** On a conforming scene the function prints the banner, the prompt and the
    rule, allocates the mock response and returns its JSON text. *)
Lemma generate_scene_content_read (v : val) (w : world) (sc : SceneDescription) :
  read_scene (heap w) v = Some sc →
  ∃ ext, generate_scene_content v w
         = (Ok (encode 0 mock_response),
            World (heap w ++ ext)
              (stdout w ++ [ "--- Generated Prompt for LLM ---" +:+ nl;
                             compose sc +:+ nl;
                             "---------------------------------" +:+ nl ])).
Proof.
  intros H. unfold generate_scene_content.
  rewrite (bind_ok _ _ _ _ _ (create_curator_prompt_read _ _ _ H)).
  rewrite !print_bind. cbn [heap stdout].
  destruct (json_dumps_build mock_response
              (World (heap w)
                 (((stdout w ++ ["--- Generated Prompt for LLM ---" +:+ nl])
                   ++ [compose sc +:+ nl]) ++ ["---------------------------------" +:+ nl]))
              mock_response_wf) as [ext Hext].
  exists ext. cbn [heap stdout] in Hext. rewrite <- !app_assoc in Hext.
  rewrite <- !app_assoc. exact Hext.
Qed.

(** C8: the JSON text [json.dumps] makes of the mock response decodes to the
    same record, and the object [json.loads] builds from that text reads
    back as the mock response: title, narrative and design_suggestions are
    those of the original. *)
Theorem mock_response_round_trip (w : world) :
  ∃ (text : string) (w1 : world) (content_obj : val) (w2 : world),
    (build mock_response ≫= json_dumps) w = (Ok text, w1)
    ∧ decode text = Parsed mock_response ""
    ∧ json_loads text w1 = (Ok content_obj, w2)
    ∧ reify (S (length (heap w2))) (heap w2) content_obj = Ok mock_response.
Proof.
  destruct (json_dumps_build mock_response w mock_response_wf) as [ext Hdumps].
  destruct (build_spec mock_response mock_response_wf (World (heap w ++ ext) (stdout w)))
    as (v & ext' & Hb & Hd & Hr).
  exists (encode 0 mock_response), (World (heap w ++ ext) (stdout w)), v,
    (World (heap (World (heap w ++ ext) (stdout w)) ++ ext') (stdout w)).
  split; [exact Hdumps|]. split; [exact mock_response_decode|]. split.
  - unfold json_loads. rewrite mock_response_decode. exact Hb.
  - cbn [heap] in *. specialize (Hr (S (length ((heap w ++ ext) ++ ext'))) []).
    rewrite app_nil_r in Hr. apply Hr. rewrite length_app. lia.
Qed.

(** C10: on any two conforming scenes the function returns the same string,
    the JSON text of the mock response. *)
Theorem generated_content_ignores_scene
    (v1 : val) (w1 : world) (sc1 : SceneDescription)
    (v2 : val) (w2 : world) (sc2 : SceneDescription) :
  read_scene (heap w1) v1 = Some sc1 →
  read_scene (heap w2) v2 = Some sc2 →
  fst (generate_scene_content v1 w1) = Ok (encode 0 mock_response)
  ∧ fst (generate_scene_content v2 w2) = fst (generate_scene_content v1 w1).
Proof.
  intros H1 H2.
  destruct (generate_scene_content_read _ _ _ H1) as [ext1 ->].
  by destruct (generate_scene_content_read _ _ _ H2) as [ext2 ->].
Qed.

Lemma generated_content_ignores_scene_loft_bare :
  read_scene (heap loft_world) loft_ref = Some loft_scene ∧
  read_scene bare_heap (VRef 2) = Some bare_scene ∧
  loft_scene ≠ bare_scene ∧
  fst (generate_scene_content loft_ref loft_world) = Ok (encode 0 mock_response)
  ∧ fst (generate_scene_content (VRef 2) (World bare_heap []))
    = fst (generate_scene_content loft_ref loft_world).
Proof.
  split; [vm_compute; reflexivity|]. split; [vm_compute; reflexivity|].
  split; [discriminate|].
  apply (generated_content_ignores_scene
           loft_ref loft_world loft_scene (VRef 2) (World bare_heap []) bare_scene).
  - vm_compute; reflexivity.
  - vm_compute; reflexivity.
Defined.

(** C9: run as a script, main.py is refused at compile time for the [await]
    of line 144 and writes nothing.  Under a host with top-level await the
    guarded block runs to its end and writes, in this order, the prompt,
    the JSON text of the mock response and the title line (with the banner
    and rule lines between them). *)
Theorem script_stops_at_module_level_await :
  run_module Script (World [] []) = (Raise SyntaxError, World [] [])
  ∧ fst (run_module TopLevelAwait (World [] [])) = Ok tt
  ∧ stdout (snd (run_module TopLevelAwait (World [] []))) = expected_stdout.
Proof. repeat split; vm_compute; reflexivity. Qed.

End Script.

(** ** Failing and lenient calls of the composer *)

Section ComposerErrors.

Lemma readonly_run {A} (m : M A) (w w' : world) (r : outcome A) :
  readonly m → m w = (r, w') → w' = w.
Proof. intros Hm H. specialize (Hm w). by rewrite H in Hm. Qed.

Lemma bind_raise {A B} (m : M A) (f : A → M B) (w w' : world) (e : exn) :
  m w = (Raise e, w') → (m ≫= f) w = (Raise e, w').
Proof. intros H. unfold mbind, M_bind. by rewrite H. Qed.

Lemma bind_ok_inv {A B} (m : M A) (f : A → M B) (w w' : world) (b : B) :
  (m ≫= f) w = (Ok b, w') → ∃ a w1, m w = (Ok a, w1) ∧ f a w1 = (Ok b, w').
Proof.
  unfold mbind, M_bind. destruct (m w) as [[a|e|] w1]; intros H; [eauto|done..].
Qed.

Lemma bind_ok_inv_readonly {A B} (m : M A) (f : A → M B) (w w' : world) (b : B) :
  readonly m → (m ≫= f) w = (Ok b, w') → ∃ a, m w = (Ok a, w) ∧ f a w = (Ok b, w').
Proof.
  intros Hm (a & w1 & H1 & H2)%bind_ok_inv.
  pose proof (readonly_run _ _ _ _ Hm H1) as ->. eauto.
Qed.

Lemma subscript_ok_inv (v : val) (k : string) (w w' : world) (x : val) :
  subscript v k w = (Ok x, w') →
  ∃ d, read_dict (heap w) v = Some d ∧ dict_get d k = Some x.
Proof.
  destruct v as [s|l]; simpl; [done|].
  unfold mbind, M_bind, deref.
  destruct (heap w !! l) as [[xs|d]|]; [done| |done].
  destruct (dict_get d k) as [y|] eqn:E; [|done].
  intros [= -> _]. eauto.
Qed.

Lemma format_value_ok_inv (x : val) (w w' : world) (s : string) :
  format_value x w = (Ok s, w') → x = VStr s.
Proof. destruct x; [by intros [= -> _]|done]. Qed.

Lemma field_ok_inv (v : val) (k : string) (w w' : world) (s : string) :
  (subscript v k ≫= format_value) w = (Ok s, w') →
  ∃ d, read_dict (heap w) v = Some d ∧ dict_get d k = Some (VStr s).
Proof.
  intros (x & H1 & H2)%bind_ok_inv_readonly; [|apply readonly_subscript].
  apply format_value_ok_inv in H2 as ->. by apply subscript_ok_inv in H1.
Qed.

Lemma mapM_ok_inv {A B} (f : A → M B) (xs : list A) (w w' : world) (ys : list B) :
  (∀ a, readonly (f a)) →
  mapM f xs w = (Ok ys, w') →
  Forall2 (fun x y => f x w = (Ok y, w)) xs ys.
Proof.
  intros Hf. revert ys. induction xs as [|x xs IH]; intros ys H.
  - change (mapM f [] w) with (Ok (@nil B), w) in H. injection H as <- _. constructor.
  - change (mapM f (x :: xs)) with (y ← f x; k ← mapM f xs; mret (y :: k)) in H.
    apply bind_ok_inv_readonly in H as (y & Hy & H); [|done].
    apply bind_ok_inv_readonly in H as (k & Hk & H); [|by apply readonly_mapM].
    change ((Ok (y :: k), w) = (Ok ys, w')) in H.
    injection H as <- <-. constructor; [done|]. by apply IH.
Qed.

Create HintDb effects.
#[local] Hint Resolve readonly_ret readonly_raise readonly_unmodelled readonly_deref
  readonly_subscript readonly_iterate readonly_format_value readonly_str_join
  readonly_mapM readonly_describe_object readonly_bind : effects.

Lemma describe_object_ok_inv (o : val) (w w' : world) (line : string) :
  describe_object o w = (Ok line, w') →
  ∃ od n m p,
    read_dict (heap w) o = Some od
    ∧ dict_get od "name" = Some (VStr n)
    ∧ dict_get od "material" = Some (VStr m)
    ∧ dict_get od "position" = Some (VStr p)
    ∧ is_Some (dict_get od "tags").
Proof.
  unfold describe_object. intros H.
  apply bind_ok_inv_readonly in H as (n & Hn & H); [|auto with effects].
  apply bind_ok_inv_readonly in H as (m & Hm & H); [|auto with effects].
  apply bind_ok_inv_readonly in H as (p & Hp & H); [|auto with effects].
  apply bind_ok_inv_readonly in H as (t & Ht & _); [|auto with effects].
  apply field_ok_inv in Hn as (od & Hod & Hn).
  apply field_ok_inv in Hm as (od1 & Hod1 & Hm).
  apply field_ok_inv in Hp as (od2 & Hod2 & Hp).
  apply bind_ok_inv_readonly in Ht as (tv & Ht & _); [|auto with effects].
  apply subscript_ok_inv in Ht as (od3 & Hod3 & Ht).
  simplify_eq. by exists od, n, m, p.
Qed.

(** Everything a successful call has looked up. *)
Lemma create_curator_prompt_ok_inv (v : val) (w w' : world) (p : string) :
  create_curator_prompt v w = (Ok p, w') →
  ∃ d ov items rendered n s lv ld k l,
    read_dict (heap w) v = Some d
    ∧ dict_get d "objects" = Some ov
    ∧ iterate ov w = (Ok items, w)
    ∧ mapM describe_object items w = (Ok rendered, w)
    ∧ dict_get d "scene_name" = Some (VStr n)
    ∧ dict_get d "overall_style" = Some (VStr s)
    ∧ dict_get d "lighting" = Some lv
    ∧ read_dict (heap w) lv = Some ld
    ∧ dict_get ld "type" = Some (VStr k)
    ∧ dict_get ld "source" = Some (VStr l)
    ∧ p = prompt_text n s k l (String.concat nl rendered)
    ∧ w' = w.
Proof.
  unfold create_curator_prompt. intros H.
  apply bind_ok_inv_readonly in H as (items & Hitems & H); [|auto with effects].
  apply bind_ok_inv_readonly in H as (rendered & Hr & H); [|auto with effects].
  apply bind_ok_inv_readonly in H as (n & Hn & H); [|auto with effects].
  apply bind_ok_inv_readonly in H as (s & Hs & H); [|auto with effects].
  apply bind_ok_inv_readonly in H as (k & Hk & H); [|auto 6 with effects].
  apply bind_ok_inv_readonly in H as (l & Hl & H); [|auto 6 with effects].
  change ((Ok (prompt_text n s k l (String.concat nl rendered)), w) = (Ok p, w')) in H.
  injection H as <- <-.
  apply bind_ok_inv_readonly in Hitems as (ov & Hov & Hitems); [|auto with effects].
  apply subscript_ok_inv in Hov as (d & Hd & Hov).
  apply field_ok_inv in Hn as (d1 & Hd1 & Hn).
  apply field_ok_inv in Hs as (d2 & Hd2 & Hs).
  apply bind_ok_inv_readonly in Hk as (x & Hx & Hk); [|auto with effects].
  apply format_value_ok_inv in Hk as ->.
  apply bind_ok_inv_readonly in Hx as (lv & Hlv & Hk); [|auto with effects].
  apply subscript_ok_inv in Hlv as (d3 & Hd3 & Hlv).
  apply subscript_ok_inv in Hk as (ld & Hld & Hk).
  apply bind_ok_inv_readonly in Hl as (x & Hx & Hl); [|auto with effects].
  apply format_value_ok_inv in Hl as ->.
  apply bind_ok_inv_readonly in Hx as (lv' & Hlv' & Hl); [|auto with effects].
  apply subscript_ok_inv in Hlv' as (d4 & Hd4 & Hlv').
  apply subscript_ok_inv in Hl as (ld' & Hld' & Hl).
  simplify_eq.
  exists d, ov, items, rendered, n, s, lv, ld, k, l. by repeat split.
Qed.

Lemma mapM_raise_at {A B} (f : A → M B) (good : list A) (bad : A) (rest : list A)
    (w : world) (ys : list B) (e : exn) :
  Forall2 (fun x y => f x w = (Ok y, w)) good ys →
  f bad w = (Raise e, w) →
  mapM f (good ++ bad :: rest) w = (Raise e, w).
Proof.
  intros Hgood Hbad. induction Hgood as [|x y good ys Hx _ IH].
  - change (mapM f ([] ++ bad :: rest)) with (y ← f bad; k ← mapM f rest; mret (y :: k)).
    by apply bind_raise.
  - change (mapM f ((x :: good) ++ bad :: rest))
      with (y ← f x; k ← mapM f (good ++ bad :: rest); mret (y :: k)).
    rewrite (bind_ok _ _ _ _ _ Hx). by apply bind_raise.
Qed.

(** X1: whatever it is called with and however the call ends (a prompt, an
    exception), create_curator_prompt leaves every object of the store and
    everything written to standard output as it was. *)
Theorem create_curator_prompt_never_writes (v : val) (w : world) :
  heap (snd (create_curator_prompt v w)) = heap w
  ∧ stdout (snd (create_curator_prompt v w)) = stdout w.
Proof. by rewrite (readonly_create_curator_prompt v w). Qed.

(** X2: a scene dict without the key "objects" makes the call raise
    KeyError("objects"), whatever else the scene holds: the objects are the
    first thing looked up. *)
Theorem missing_objects_key (v : val) (w : world) (d : list (string * val)) :
  read_dict (heap w) v = Some d →
  dict_get d "objects" = None →
  create_curator_prompt v w = (Raise (KeyError "objects"), w).
Proof.
  intros Hd Hk. unfold create_curator_prompt.
  do 2 apply bind_raise.
  destruct v as [s|l]; [done|]. simpl in *.
  unfold mbind, M_bind, deref.
  destruct (heap w !! l) as [[xs|d']|]; simplify_eq. by rewrite Hk.
Qed.

Lemma missing_objects_key_example :
  read_dict [ODict [("scene_name", VStr "Attic")]] (VRef 0)
    = Some [("scene_name", VStr "Attic")]
  ∧ dict_get [("scene_name", VStr "Attic")] "objects" = None
  ∧ create_curator_prompt (VRef 0) (World [ODict [("scene_name", VStr "Attic")]] [])
    = (Raise (KeyError "objects"), World [ODict [("scene_name", VStr "Attic")]] []).
Proof.
  split; [reflexivity|]. split; [reflexivity|].
  apply (missing_objects_key (VRef 0) (World [ODict [("scene_name", VStr "Attic")]] [])
           [("scene_name", VStr "Attic")]); reflexivity.
Defined.

(** X3: an object dict reports the first of "name", "material", "position",
    "tags" that it lacks: when the keys before [k] in that order hold str
    values and [k] is absent, rendering the object raises KeyError(k). *)
Theorem object_missing_field (o : val) (w : world) (od : list (string * val))
    (k : string) (before after : list string) :
  read_dict (heap w) o = Some od →
  ["name"; "material"; "position"; "tags"] = before ++ k :: after →
  Forall (fun k' => ∃ s, dict_get od k' = Some (VStr s)) before →
  dict_get od k = None →
  describe_object o w = (Raise (KeyError k), w).
Proof.
  intros Hod Hsplit Hbefore Hk.
  assert (∀ k' s, dict_get od k' = Some (VStr s) →
            (subscript o k' ≫= format_value) w = (Ok s, w)) as Hfield.
  { intros k' s Hk'. apply field_read with od; [done|]. by rewrite Hk'. }
  assert (∀ {B} (f : val → M B), (subscript o k ≫= f) w = (Raise (KeyError k), w)) as Hmiss.
  { intros B f. apply bind_raise. destruct o as [s|l]; [done|]. simpl in *.
    unfold mbind, M_bind, deref.
    destruct (heap w !! l) as [[xs|d']|]; simplify_eq. by rewrite Hk. }
  unfold describe_object.
  destruct before as [|k1 [|k2 [|k3 [|k4 more]]]]; simplify_eq/=.
  - by apply bind_raise.
  - apply Forall_cons in Hbefore as [[s1 H1] _].
    rewrite (bind_ok _ _ _ _ _ (Hfield _ _ H1)). by apply bind_raise.
  - apply Forall_cons in Hbefore as [[s1 H1] [[s2 H2] _]%Forall_cons].
    rewrite (bind_ok _ _ _ _ _ (Hfield _ _ H1)), (bind_ok _ _ _ _ _ (Hfield _ _ H2)).
    by apply bind_raise.
  - apply Forall_cons in Hbefore as [[s1 H1] [[s2 H2] [[s3 H3] _]%Forall_cons]%Forall_cons].
    rewrite (bind_ok _ _ _ _ _ (Hfield _ _ H1)), (bind_ok _ _ _ _ _ (Hfield _ _ H2)),
      (bind_ok _ _ _ _ _ (Hfield _ _ H3)).
    by apply bind_raise.
  - by destruct more.
Qed.

Lemma object_missing_field_example :
  read_dict broken_object_heap (VRef 0) = Some [("name", VStr "Chair")]
  ∧ describe_object (VRef 0) (World broken_object_heap [])
    = (Raise (KeyError "material"), World broken_object_heap []).
Proof.
  split; [reflexivity|].
  apply (object_missing_field (VRef 0) (World broken_object_heap [])
           [("name", VStr "Chair")] "material" ["name"] ["position"; "tags"]).
  - reflexivity.
  - reflexivity.
  - repeat constructor. by exists "Chair".
  - reflexivity.
Defined.



(** X5: with all objects conforming, the scene's own fields are read in the
    order "scene_name", "overall_style", "lighting", and the first of them
    that is absent (the ones before it holding str values) is reported as
    KeyError. *)
Theorem scene_missing_field (v : val) (w : world) (d : list (string * val))
    (ov : val) (vs : list val) (os : list SceneObject)
    (k : string) (before after : list string) :
  read_dict (heap w) v = Some d →
  dict_get d "objects" = Some ov →
  read_list (heap w) ov = Some vs →
  mapM (read_object (heap w)) vs = Some os →
  ["scene_name"; "overall_style"; "lighting"] = before ++ k :: after →
  Forall (fun k' => ∃ s, dict_get d k' = Some (VStr s)) before →
  dict_get d k = None →
  create_curator_prompt v w = (Raise (KeyError k), w).
Proof.
  intros Hd Hov Hvs Hos Hsplit Hbefore Hk.
  assert (∀ k' s, dict_get d k' = Some (VStr s) →
            (subscript v k' ≫= format_value) w = (Ok s, w)) as Hfield.
  { intros k' s Hk'. apply field_read with d; [done|]. by rewrite Hk'. }
  assert (∀ {B} (f : val → M B), (subscript v k ≫= f) w = (Raise (KeyError k), w)) as Hmiss.
  { intros B f. apply bind_raise. destruct v as [s|l]; [done|]. simpl in *.
    unfold mbind, M_bind, deref.
    destruct (heap w !! l) as [[xs|d']|]; simplify_eq. by rewrite Hk. }
  unfold create_curator_prompt.
  erewrite bind_ok; [|rewrite (bind_ok _ _ _ _ _ (subscript_read _ _ _ _ _ Hd Hov));
                      by apply iterate_read].
  rewrite (bind_ok _ _ _ _ _ (describe_objects_read _ _ _ Hos)).
  destruct before as [|k1 [|k2 [|k3 more]]]; simplify_eq/=.
  - by apply bind_raise.
  - apply Forall_cons in Hbefore as [[s1 H1] _].
    rewrite (bind_ok _ _ _ _ _ (Hfield _ _ H1)). by apply bind_raise.
  - apply Forall_cons in Hbefore as [[s1 H1] [[s2 H2] _]%Forall_cons].
    rewrite (bind_ok _ _ _ _ _ (Hfield _ _ H1)), (bind_ok _ _ _ _ _ (Hfield _ _ H2)).
    apply bind_raise, bind_raise. apply Hmiss.
  - by destruct more.
Qed.

Lemma scene_missing_field_example :
  create_curator_prompt (VRef 1) (World unstyled_heap [])
  = (Raise (KeyError "overall_style"), World unstyled_heap []).
Proof.
  apply (scene_missing_field (VRef 1) (World unstyled_heap [])
           [("scene_name", VStr "Attic"); ("objects", VRef 0)] (VRef 0) [] []
           "overall_style" ["scene_name"] ["lighting"]).
  - reflexivity.
  - reflexivity.
  - reflexivity.
  - reflexivity.
  - reflexivity.
  - repeat constructor. by exists "Attic".
  - reflexivity.
Defined.

(** X6: a lighting dict reports the first of "type" and "source" that it
    lacks, once the objects and the two text fields of the scene have been
    read. *)
Theorem lighting_missing_field (v : val) (w : world) (d : list (string * val))
    (ov : val) (vs : list val) (os : list SceneObject) (n s : string)
    (lv : val) (ld : list (string * val))
    (k : string) (before after : list string) :
  read_dict (heap w) v = Some d →
  dict_get d "objects" = Some ov →
  read_list (heap w) ov = Some vs →
  mapM (read_object (heap w)) vs = Some os →
  dict_get d "scene_name" = Some (VStr n) →
  dict_get d "overall_style" = Some (VStr s) →
  dict_get d "lighting" = Some lv →
  read_dict (heap w) lv = Some ld →
  ["type"; "source"] = before ++ k :: after →
  Forall (fun k' => ∃ s, dict_get ld k' = Some (VStr s)) before →
  dict_get ld k = None →
  create_curator_prompt v w = (Raise (KeyError k), w).
Proof.
  intros Hd Hov Hvs Hos Hn Hs Hlv Hld Hsplit Hbefore Hk.
  assert (∀ k' x, dict_get d k' = Some (VStr x) →
            (subscript v k' ≫= format_value) w = (Ok x, w)) as Hfield.
  { intros k' x Hk'. apply field_read with d; [done|]. by rewrite Hk'. }
  assert ((subscript v "lighting" ≫= fun l => subscript l k) w = (Raise (KeyError k), w))
    as Hmiss.
  { rewrite (bind_ok _ _ _ _ _ (subscript_read _ _ _ _ _ Hd Hlv)).
    destruct lv as [x|l]; [done|]. simpl in *.
    unfold mbind, M_bind, deref.
    destruct (heap w !! l) as [[xs|d']|]; simplify_eq. by rewrite Hk. }
  unfold create_curator_prompt.
  erewrite bind_ok; [|rewrite (bind_ok _ _ _ _ _ (subscript_read _ _ _ _ _ Hd Hov));
                      by apply iterate_read].
  rewrite (bind_ok _ _ _ _ _ (describe_objects_read _ _ _ Hos)).
  rewrite (bind_ok _ _ _ _ _ (Hfield _ _ Hn)), (bind_ok _ _ _ _ _ (Hfield _ _ Hs)).
  destruct before as [|k1 [|k2 more]]; simplify_eq/=.
  - by do 2 apply bind_raise.
  - apply Forall_cons in Hbefore as [[s1 H1] _].
    rewrite (bind_ok _ _ _ _ _
               (nested_field_read _ _ _ _ _ _ _ _ Hd Hlv Hld
                  (eq_ind_r (fun o => o ≫= read_str = Some s1) eq_refl H1))).
    by do 2 apply bind_raise.
  - by destruct more.
Qed.

Lemma lighting_missing_field_example :
  create_curator_prompt (VRef 2)
    (World [ OList []; ODict [("type", VStr "Dim")];
             ODict [("scene_name", VStr "Attic"); ("overall_style", VStr "Bare");
                    ("lighting", VRef 1); ("objects", VRef 0)] ] [])
  = (Raise (KeyError "source"),
     World [ OList []; ODict [("type", VStr "Dim")];
             ODict [("scene_name", VStr "Attic"); ("overall_style", VStr "Bare");
                    ("lighting", VRef 1); ("objects", VRef 0)] ] []).
Proof.
  apply (lighting_missing_field (VRef 2) _
           [("scene_name", VStr "Attic"); ("overall_style", VStr "Bare");
            ("lighting", VRef 1); ("objects", VRef 0)]
           (VRef 0) [] [] "Attic" "Bare" (VRef 1) [("type", VStr "Dim")]
           "source" ["type"] []).
  - reflexivity.
  - reflexivity.
  - reflexivity.
  - reflexivity.
  - reflexivity.
  - reflexivity.
  - reflexivity.
  - reflexivity.
  - reflexivity.
  - repeat constructor. by exists "Dim".
  - reflexivity.
Defined.

(** X7: a prompt is returned only when every key the template reads is
    there: the scene is a dict with the keys "scene_name", "overall_style",
    "lighting" and "objects", the lighting is a dict with the keys "type"
    and "source", and every item of the objects is a dict with the keys
    "name", "material", "position" and "tags".  With any of these absent
    no prompt comes back, so none is ever rendered in part. *)
Theorem prompt_needs_every_field (v : val) (w : world) (p : string) :
  fst (create_curator_prompt v w) = Ok p →
  ∃ (d ld : list (string * val)) (lv ov : val) (items : list val),
    read_dict (heap w) v = Some d
    ∧ is_Some (dict_get d "scene_name")
    ∧ is_Some (dict_get d "overall_style")
    ∧ dict_get d "lighting" = Some lv ∧ read_dict (heap w) lv = Some ld
    ∧ is_Some (dict_get ld "type")
    ∧ is_Some (dict_get ld "source")
    ∧ dict_get d "objects" = Some ov ∧ fst (iterate ov w) = Ok items
    ∧ Forall (fun o => ∃ od,
                read_dict (heap w) o = Some od
                ∧ is_Some (dict_get od "name")
                ∧ is_Some (dict_get od "material")
                ∧ is_Some (dict_get od "position")
                ∧ is_Some (dict_get od "tags")) items.
Proof.
  destruct (create_curator_prompt v w) as [r w'] eqn:E. simpl. intros ->.
  apply create_curator_prompt_ok_inv in E
    as (d & ov & items & rendered & n & s & lv & ld & k & l
        & Hd & Hov & Hit & Hr & Hn & Hs & Hlv & Hld & Hk & Hl & _ & _).
  exists d, ld, lv, ov, items. rewrite Hit.
  repeat split; eauto.
  apply mapM_ok_inv in Hr; [|apply readonly_describe_object]. clear -Hr.
  induction Hr as [|o line items rendered Ho _ IH]; [constructor|].
  constructor; [|done].
  apply describe_object_ok_inv in Ho as (od & n' & m' & p' & ? & ? & ? & ? & ?).
  exists od. eauto 10.
Qed.

Lemma prompt_needs_every_field_loft :
  ∃ (d ld : list (string * val)) (lv ov : val) (items : list val),
    read_dict (heap loft_world) loft_ref = Some d
    ∧ is_Some (dict_get d "scene_name")
    ∧ is_Some (dict_get d "overall_style")
    ∧ dict_get d "lighting" = Some lv ∧ read_dict (heap loft_world) lv = Some ld
    ∧ is_Some (dict_get ld "type")
    ∧ is_Some (dict_get ld "source")
    ∧ dict_get d "objects" = Some ov ∧ fst (iterate ov loft_world) = Ok items
    ∧ Forall (fun o => ∃ od,
                read_dict (heap loft_world) o = Some od
                ∧ is_Some (dict_get od "name")
                ∧ is_Some (dict_get od "material")
                ∧ is_Some (dict_get od "position")
                ∧ is_Some (dict_get od "tags")) items.
Proof.
  apply (prompt_needs_every_field loft_ref loft_world (compose loft_scene)).
  vm_compute. reflexivity.
Defined.

Lemma concat_nl_app (a b : list string) :
  a ≠ [] → b ≠ [] →
  String.concat nl (a ++ b) = String.concat nl a +:+ nl +:+ String.concat nl b.
Proof.
  intros Ha Hb. induction a as [|x [|y a] IH]; [done| |].
  - destruct b; [done|reflexivity].
  - change (x +:+ nl +:+ String.concat nl ((y :: a) ++ b)
            = (x +:+ nl +:+ String.concat nl (y :: a)) +:+ nl +:+ String.concat nl b).
    rewrite IH by done. by rewrite !append_assoc.
Qed.

Ltac in_prompt_line n :=
  solve [ eapply substring_concat;
          [ apply nth_error_In with n; reflexivity
          | apply contains_sound; vm_compute; reflexivity ] ].

(** X8: every prompt the function returns, on a conforming scene or not,
    is the template filled in: it opens with the persona heading, holds the
    three quoted key names and the closing constraint, and ends with the
    indentation of the closing quotes. *)
Theorem every_prompt_is_the_template (v : val) (w : world) (p : string) :
  fst (create_curator_prompt v w) = Ok p →
  (∃ n s k l block, p = prompt_text n s k l block)
  ∧ String.prefix (nl +:+ "    **Persona Instruction:**" +:+ nl) p = true
  ∧ Substring (dq +:+ "title" +:+ dq +:+ ", " +:+ dq +:+ "narrative" +:+ dq
               +:+ ", and " +:+ dq +:+ "design_suggestions" +:+ dq) p
  ∧ (∃ before, p = before +:+ "Do not include any explanatory text before or after the JSON."
                   +:+ nl +:+ "    ").
Proof.
  destruct (create_curator_prompt v w) as [r w'] eqn:E. simpl. intros ->.
  apply create_curator_prompt_ok_inv in E
    as (d & ov & items & rendered & n & s & lv & ld & k & l
        & _ & _ & _ & _ & _ & _ & _ & _ & _ & _ & -> & _).
  split; [by exists n, s, k, l, (String.concat nl rendered)|].
  split; [reflexivity|]. split.
  - unfold prompt_text. in_prompt_line 12.
  - unfold prompt_text. rewrite prompt_lines_split.
    set (pre := firstn 9 _). set (blk := "    " +:+ _).
    exists (String.concat nl (pre ++ [blk]) +:+ nl
            +:+ String.concat nl (firstn 13 lines_after_block)
            +:+ nl +:+ "    Your final output must be a single, valid JSON object and nothing else. ").
    change (skipn 10 (prompt_lines "" "" "" "" "")) with lines_after_block.
    change (pre ++ blk :: lines_after_block) with (pre ++ [blk] ++ lines_after_block).
    rewrite app_assoc, concat_nl_app; [|by intros [_ [=]]%app_eq_nil|by vm_compute].
    rewrite !append_assoc. do 2 f_equal; by vm_compute.
Qed.

Lemma every_prompt_is_the_template_loft :
  (∃ n s k l block, compose loft_scene = prompt_text n s k l block)
  ∧ String.prefix (nl +:+ "    **Persona Instruction:**" +:+ nl) (compose loft_scene) = true
  ∧ Substring (dq +:+ "title" +:+ dq +:+ ", " +:+ dq +:+ "narrative" +:+ dq
               +:+ ", and " +:+ dq +:+ "design_suggestions" +:+ dq) (compose loft_scene)
  ∧ (∃ before, compose loft_scene
               = before +:+ "Do not include any explanatory text before or after the JSON."
                 +:+ nl +:+ "    ").
Proof.
  apply (every_prompt_is_the_template loft_ref loft_world (compose loft_scene)).
  vm_compute. reflexivity.
Defined.

Lemma join_items_of_chars (cs : list ascii) (w : world) :
  mapM (fun v => match v with
                 | VStr s => mret s
                 | VRef _ => raise TypeError
                 end) (map (fun c => VStr (String c "")) cs) w
  = (Ok (map (fun c => String c "") cs), w).
Proof.
  apply join_items_read. apply mapM_Some_2.
  induction cs; by constructor.
Qed.

(** X9: the tags are not checked to be a list.  When an object holds one
    str under "tags", the rendered line lists the characters of that str,
    joined by ", ". *)
Theorem tags_given_as_one_str (o : val) (w : world) (od : list (string * val))
    (n m p tags : string) :
  read_dict (heap w) o = Some od →
  dict_get od "name" = Some (VStr n) →
  dict_get od "material" = Some (VStr m) →
  dict_get od "position" = Some (VStr p) →
  dict_get od "tags" = Some (VStr tags) →
  describe_object o w
  = (Ok (object_line n m p
           (String.concat ", "
              (map (fun c => String c "") (list_ascii_of_string tags)))), w).
Proof.
  intros Hod Hn Hm Hp Ht.
  assert (∀ k' s, dict_get od k' = Some (VStr s) →
            (subscript o k' ≫= format_value) w = (Ok s, w)) as Hfield.
  { intros k' s Hk'. apply field_read with od; [done|]. by rewrite Hk'. }
  unfold describe_object.
  rewrite (bind_ok _ _ _ _ _ (Hfield _ _ Hn)), (bind_ok _ _ _ _ _ (Hfield _ _ Hm)),
    (bind_ok _ _ _ _ _ (Hfield _ _ Hp)).
  erewrite bind_ok; [reflexivity|].
  rewrite (bind_ok _ _ _ _ _ (subscript_read _ _ _ _ _ Hod Ht)).
  unfold str_join. erewrite bind_ok; [|reflexivity].
  by rewrite (bind_ok _ _ _ _ _ (join_items_of_chars _ _)).
Qed.

Lemma tags_given_as_one_str_example :
  describe_object (VRef 0) (World str_tags_heap [])
  = (Ok "- Chair: Made of Oak. Positioned at: Left wall. Tags: o, l, d.",
     World str_tags_heap []).
Proof.
  apply (tags_given_as_one_str (VRef 0) (World str_tags_heap [])
           [("name", VStr "Chair"); ("material", VStr "Oak");
            ("position", VStr "Left wall"); ("tags", VStr "old")]
           "Chair" "Oak" "Left wall" "old"); reflexivity.
Defined.

End ComposerErrors.

(** ** The mock call and the guarded block on any scene *)

Section MockCall.

Lemma build_frame_items (ts : list tree) :
  Forall (fun t => ∀ w, ∃ v ext,
            build t w = (Ok v, World (heap w ++ ext) (stdout w))
            ∧ length ext = containers t) ts →
  ∀ w, ∃ vs ext,
    mapM build ts w = (Ok vs, World (heap w ++ ext) (stdout w))
    ∧ length ext = list_sum (map containers ts).
Proof.
  induction 1 as [|t ts Ht _ IH]; intros w.
  - exists [], []. by rewrite world_eta.
  - destruct (Ht w) as (v & ext1 & Hb1 & Hl1).
    destruct (IH (World (heap w ++ ext1) (stdout w))) as (vs & ext2 & Hb2 & Hl2).
    cbn [heap stdout] in *. exists (v :: vs), (ext1 ++ ext2). split.
    + change (mapM build (t :: ts)) with (y ← build t; k ← mapM build ts; mret (y :: k)).
      rewrite (bind_ok _ _ _ _ _ Hb1), (bind_ok _ _ _ _ _ Hb2). by rewrite app_assoc.
    + rewrite length_app.
      change (list_sum (map containers (t :: ts)))
        with (containers t + list_sum (map containers ts)). lia.
Qed.

Lemma build_frame_entries (kts : list (string * tree)) :
  Forall (fun kt => ∀ w, ∃ v ext,
            build (snd kt) w = (Ok v, World (heap w ++ ext) (stdout w))
            ∧ length ext = containers (snd kt)) kts →
  ∀ w, ∃ kvs ext,
    mapM (fun kt => v ← build (snd kt); mret (fst kt, v)) kts w
      = (Ok kvs, World (heap w ++ ext) (stdout w))
    ∧ length ext = list_sum (map (fun kt => containers (snd kt)) kts).
Proof.
  induction 1 as [|[k t] kts Ht _ IH]; intros w.
  - exists [], []. by rewrite world_eta.
  - cbn [snd] in Ht. destruct (Ht w) as (v & ext1 & Hb1 & Hl1).
    destruct (IH (World (heap w ++ ext1) (stdout w))) as (kvs & ext2 & Hb2 & Hl2).
    cbn [heap stdout] in *. exists ((k, v) :: kvs), (ext1 ++ ext2). split.
    + change (mapM ?f ((k, t) :: kts))
        with (y ← (v ← build t; mret (k, v)); r ← mapM f kts; mret (y :: r)).
      erewrite bind_ok; [|by rewrite (bind_ok _ _ _ _ _ Hb1)].
      rewrite (bind_ok _ _ _ _ _ Hb2). by rewrite app_assoc.
    + rewrite length_app.
      change (list_sum (map ?f ((k, t) :: kts)))
        with (containers t + list_sum (map f kts)). lia.
Qed.

(** Evaluating a display never fails; it leaves the objects of the store
    and standard output in place and adds one object per list and dict. *)
Lemma build_frame (t : tree) (w : world) :
  ∃ v ext, build t w = (Ok v, World (heap w ++ ext) (stdout w))
           ∧ length ext = containers t.
Proof.
  revert w. induction t as [s|ts IH|kts IH] using tree_nested_ind; intros w.
  - exists (VStr s), []. simpl. by rewrite world_eta.
  - destruct (build_frame_items ts IH w) as (vs & ext & Hb & Hl).
    exists (VRef (length (heap w ++ ext))), (ext ++ [OList vs]). split.
    + cbn [build]. rewrite (bind_ok _ _ _ _ _ Hb). unfold new. cbn [heap stdout].
      by rewrite app_assoc.
    + rewrite length_app. cbn [containers length]. lia.
  - destruct (build_frame_entries kts IH w) as (kvs & ext & Hb & Hl).
    exists (VRef (length (heap w ++ ext))), (ext ++ [ODict (dict_of_pairs kvs)]). split.
    + cbn [build]. rewrite (bind_ok _ _ _ _ _ Hb). unfold new. cbn [heap stdout].
      by rewrite app_assoc.
    + rewrite length_app. cbn [containers length]. lia.
Qed.

Lemma json_dumps_build_counted (t : tree) (w : world) :
  wf_tree t = true →
  ∃ ext, (build t ≫= json_dumps) w
         = (Ok (encode 0 t), World (heap w ++ ext) (stdout w))
         ∧ length ext = containers t.
Proof.
  intros Hwf. destruct (json_dumps_build t w Hwf) as [ext Hext].
  destruct (build_frame t w) as (v & ext' & Hb & Hl).
  exists ext. split; [done|].
  rewrite (bind_ok _ _ _ _ _ Hb) in Hext. unfold json_dumps in Hext.
  destruct (reify _ _ v); injection Hext as _ Hh; cbn [heap] in Hh;
    apply app_inv_head in Hh; by subst.
Qed.

Lemma read_dict_extend (h ext : list obj) (v : val) d :
  read_dict h v = Some d → read_dict (h ++ ext) v = Some d.
Proof.
  destruct v as [s|l]; simpl; [done|].
  destruct (h !! l) as [o|] eqn:E; [|done].
  by rewrite (lookup_app_l_Some _ _ _ _ E).
Qed.

Lemma read_list_extend (h ext : list obj) (v : val) xs :
  read_list h v = Some xs → read_list (h ++ ext) v = Some xs.
Proof.
  destruct v as [s|l]; simpl; [done|].
  destruct (h !! l) as [o|] eqn:E; [|done].
  by rewrite (lookup_app_l_Some _ _ _ _ E).
Qed.

Lemma read_object_extend (h ext : list obj) (v : val) o :
  read_object h v = Some o → read_object (h ++ ext) v = Some o.
Proof.
  unfold read_object. intros H.
  destruct (read_dict h v) as [d|] eqn:Hd; [|done]. simpl in H.
  rewrite (read_dict_extend _ ext _ _ Hd). simpl.
  destruct (dict_get d "name" ≫= read_str) as [n|]; [|done]. simpl in *.
  destruct (dict_get d "material" ≫= read_str) as [m|]; [|done]. simpl in *.
  destruct (dict_get d "position" ≫= read_str) as [p|]; [|done]. simpl in *.
  destruct (dict_get d "tags") as [tv|]; [|done]. simpl in *.
  destruct (read_list h tv) as [xs|] eqn:Hxs; [|done]. simpl in H.
  by rewrite (read_list_extend _ ext _ _ Hxs).
Qed.

Lemma read_scene_extend (h ext : list obj) (v : val) sc :
  read_scene h v = Some sc → read_scene (h ++ ext) v = Some sc.
Proof.
  unfold read_scene. intros H.
  destruct (read_dict h v) as [d|] eqn:Hd; [|done]. simpl in H.
  rewrite (read_dict_extend _ ext _ _ Hd). simpl.
  destruct (dict_get d "scene_name" ≫= read_str) as [n|]; [|done]. simpl in *.
  destruct (dict_get d "overall_style" ≫= read_str) as [s|]; [|done]. simpl in *.
  destruct (dict_get d "lighting") as [lv|]; [|done]. simpl in *.
  destruct (read_lighting h lv) as [li|] eqn:Hli; [|done]. simpl in H.
  assert (read_lighting (h ++ ext) lv = Some li) as ->.
  { unfold read_lighting in *.
    destruct (read_dict h lv) as [ld|] eqn:Hld; [|done].
    by rewrite (read_dict_extend _ ext _ _ Hld). }
  simpl.
  destruct (dict_get d "objects") as [ov|]; [|done]. simpl in *.
  destruct (read_list h ov) as [vs|] eqn:Hvs; [|done]. simpl in H.
  rewrite (read_list_extend _ ext _ _ Hvs). simpl.
  destruct (mapM (read_object h) vs) as [os|] eqn:Hos; [|done]. simpl in H.
  assert (mapM (read_object (h ++ ext)) vs = Some os) as ->; [|done].
  apply mapM_Some_2. apply mapM_Some_1 in Hos.
  eapply Forall2_impl; [done|]. intros x y. apply read_object_extend.
Qed.

Lemma reify_str_inv (fuel : nat) (h : list obj) (x : val) (s : string) :
  reify fuel h x = Ok (TStr s) → x = VStr s.
Proof.
  destruct x as [s'|l]; [by destruct fuel; intros [= ->]|].
  destruct fuel as [|n]; [done|]. cbn [reify].
  destruct (h !! l) as [[xs|d]|]; [| |done].
  - by destruct (mapM (reify n h) xs).
  - by destruct (mapM _ d).
Qed.

(** Looking a key up in an object agrees with the display the object reads
    back as, for the entries that are strings. *)
Lemma subscript_reified (fuel : nat) (h : list obj) (out : list string) (v : val)
    (kts : list (string * tree)) (k s : string) :
  reify fuel h v = Ok (TDict kts) →
  tree_get kts k = Some (TStr s) →
  subscript v k (World h out) = (Ok (VStr s), World h out).
Proof.
  destruct v as [s'|l]; [by destruct fuel|]. destruct fuel as [|n]; [done|]. cbn [reify].
  destruct (h !! l) as [[xs|d]|] eqn:E; [by destruct (mapM (reify n h) xs)| |done].
  intros H Hk.
  assert (mapM (fun kv => t ← reify n h (snd kv); mret (fst kv, t)) d = Ok kts) as Hd.
  { destruct (mapM _ d) as [kts'| |]; cbn in H; [|discriminate H..]. by injection H as ->. }
  clear H. cbn [subscript]. unfold mbind at 1, M_bind, deref. cbn [heap]. rewrite E.
  assert (dict_get d k = Some (VStr s)) as ->; [|done].
  clear E. revert kts Hd Hk. induction d as [|[k' x] d IH]; intros kts Hd Hk.
  - change (Ok [] = Ok kts) in Hd. injection Hd as <-. discriminate Hk.
  - change (mapM ?f ((k', x) :: d))
      with (y ← (t ← reify n h x; mret (k', t)); r ← mapM f d; mret (y :: r)) in Hd.
    destruct (reify n h x) as [t| |] eqn:Hx;
      cbn [mbind outcome_bind mret outcome_ret] in Hd; [|discriminate Hd..].
    destruct (mapM _ d) as [kts'| |] eqn:Hd';
      cbn [mbind outcome_bind mret outcome_ret] in Hd; [|discriminate Hd..].
    injection Hd as <-.
    cbn [tree_get dict_get] in *. destruct (String.eqb k' k).
    + injection Hk as ->. by rewrite (reify_str_inv _ _ _ _ Hx).
    + by apply (IH kts').
Qed.

(** X10: when building the prompt fails, generate_scene_content fails with
    the same exception before it has printed anything or built the mock
    response. *)
Theorem generate_scene_content_fails_early (v : val) (w : world) (e : exn) :
  fst (create_curator_prompt v w) = Raise e →
  generate_scene_content v w = (Raise e, w).
Proof.
  intros H. destruct (create_curator_prompt v w) as [r w'] eqn:E. simpl in H. subst r.
  pose proof (readonly_run _ _ _ _ (readonly_create_curator_prompt v) E) as ->.
  unfold generate_scene_content. by apply bind_raise.
Qed.

Lemma generate_scene_content_fails_early_example :
  generate_scene_content (VRef 2) (World broken_object_heap [])
  = (Raise (KeyError "material"), World broken_object_heap []).
Proof.
  apply (generate_scene_content_fails_early (VRef 2) (World broken_object_heap [])).
  reflexivity.
Defined.

(** X11: whenever the prompt is built, on a conforming scene or not,
    generate_scene_content appends three entries to standard output (the
    banner, the prompt, the rule), adds two objects to the store (the list
    and the dict of the mock response) without touching an older one, and
    returns the JSON text of the mock response. *)
Theorem generate_scene_content_after_prompt (v : val) (w : world) (p : string) :
  fst (create_curator_prompt v w) = Ok p →
  ∃ ext,
    generate_scene_content v w
    = (Ok (encode 0 mock_response),
       World (heap w ++ ext)
         (stdout w ++ [ "--- Generated Prompt for LLM ---" +:+ nl;
                        p +:+ nl;
                        "---------------------------------" +:+ nl ]))
    ∧ length ext = 2.
Proof.
  intros H. destruct (create_curator_prompt v w) as [r w'] eqn:E. simpl in H. subst r.
  pose proof (readonly_run _ _ _ _ (readonly_create_curator_prompt v) E) as ->.
  unfold generate_scene_content. rewrite (bind_ok _ _ _ _ _ E), !print_bind.
  cbn [heap stdout].
  destruct (json_dumps_build_counted mock_response
              (World (heap w)
                 (((stdout w ++ ["--- Generated Prompt for LLM ---" +:+ nl])
                   ++ [p +:+ nl]) ++ ["---------------------------------" +:+ nl]))
              mock_response_wf) as (ext & Hext & Hl).
  exists ext. split; [|done].
  cbn [heap stdout] in Hext. rewrite <- !app_assoc in Hext. rewrite <- !app_assoc.
  exact Hext.
Qed.

Lemma generate_scene_content_after_prompt_str_tags :
  ∃ ext,
    generate_scene_content (VRef 3)
      (World (str_tags_heap
              ++ [ OList [VRef 0]; ODict [("type", VStr "Dim"); ("source", VStr "Lamp")];
                   ODict [("scene_name", VStr "Attic"); ("overall_style", VStr "Bare");
                          ("lighting", VRef 2); ("objects", VRef 1)] ]) [])
    = (Ok (encode 0 mock_response),
       World ((str_tags_heap
               ++ [ OList [VRef 0]; ODict [("type", VStr "Dim"); ("source", VStr "Lamp")];
                    ODict [("scene_name", VStr "Attic"); ("overall_style", VStr "Bare");
                           ("lighting", VRef 2); ("objects", VRef 1)] ]) ++ ext)
         ([] ++ [ "--- Generated Prompt for LLM ---" +:+ nl;
                  prompt_text "Attic" "Bare" "Dim" "Lamp"
                    "- Chair: Made of Oak. Positioned at: Left wall. Tags: o, l, d." +:+ nl;
                  "---------------------------------" +:+ nl ]))
    ∧ length ext = 2.
Proof.
  apply (generate_scene_content_after_prompt (VRef 3)
           (World (str_tags_heap
              ++ [ OList [VRef 0]; ODict [("type", VStr "Dim"); ("source", VStr "Lamp")];
                   ODict [("scene_name", VStr "Attic"); ("overall_style", VStr "Bare");
                          ("lighting", VRef 2); ("objects", VRef 1)] ]) [])).
  vm_compute. reflexivity.
Defined.

(** X12: generate_scene_content leaves a conforming scene as it found it:
    after the call the scene still reads as the same data, although the
    store has grown. *)
Theorem generate_scene_content_keeps_scene (v : val) (w : world) (sc : SceneDescription) :
  read_scene (heap w) v = Some sc →
  read_scene (heap (snd (generate_scene_content v w))) v = Some sc.
Proof.
  intros H. destruct (generate_scene_content_read _ _ _ H) as [ext ->].
  by apply read_scene_extend.
Qed.

Lemma generate_scene_content_keeps_scene_loft :
  read_scene (heap (snd (generate_scene_content loft_ref loft_world))) loft_ref
  = Some loft_scene.
Proof.
  apply (generate_scene_content_keeps_scene loft_ref loft_world loft_scene).
  vm_compute. reflexivity.
Defined.

(** X13: on every conforming scene the guarded block runs to its end and
    appends eight entries to standard output, in this order: the opening
    line, the banner, the prompt of that scene, a rule, the banner of the
    content, the JSON text of the mock response, a rule, and the title line
    read back from that JSON text.  Only the third entry depends on the
    scene. *)
Theorem main_block_output (v : val) (w : world) (sc : SceneDescription) :
  read_scene (heap w) v = Some sc →
  ∃ ext,
    main_block v w
    = (Ok tt,
       World (heap w ++ ext)
         (stdout w ++ [ "Generating 3D-aware content for the scene..." +:+ nl;
                        "--- Generated Prompt for LLM ---" +:+ nl;
                        compose sc +:+ nl;
                        "---------------------------------" +:+ nl;
                        nl +:+ "--- Generated Content (JSON Output) ---" +:+ nl;
                        encode 0 mock_response +:+ nl;
                        "--------------------------------------" +:+ nl;
                        nl +:+ "Title: Sun-Drenched Industrial Serenity" +:+ nl ])).
Proof.
  intros H. unfold main_block. rewrite print_bind.
  destruct (generate_scene_content_read v
              (World (heap w)
                 (stdout w ++ ["Generating 3D-aware content for the scene..." +:+ nl])) sc H)
    as [ext1 Hg].
  rewrite (bind_ok _ _ _ _ _ Hg), !print_bind. cbn [heap stdout].
  unfold json_loads. rewrite mock_response_decode.
  match goal with |- context [(build mock_response ≫= _) ?w0] =>
    destruct (build_spec mock_response mock_response_wf w0) as (c & ext2 & Hb & _ & Hr)
  end.
  rewrite (bind_ok _ _ _ _ _ Hb). cbn [heap stdout] in *.
  specialize (Hr 2 [] (le_n 2)). rewrite app_nil_r in Hr.
  erewrite bind_ok;
    [|rewrite (bind_ok _ _ _ _ _
                 (subscript_reified _ _ _ _ _ "title" _ Hr eq_refl)); reflexivity].
  exists (ext1 ++ ext2). unfold print. cbn [heap stdout].
  by rewrite <- !app_assoc.
Qed.

Lemma main_block_output_bare :
  ∃ ext,
    main_block (VRef 2) (World bare_heap [])
    = (Ok tt,
       World (bare_heap ++ ext)
         ([] ++ [ "Generating 3D-aware content for the scene..." +:+ nl;
                  "--- Generated Prompt for LLM ---" +:+ nl;
                  compose bare_scene +:+ nl;
                  "---------------------------------" +:+ nl;
                  nl +:+ "--- Generated Content (JSON Output) ---" +:+ nl;
                  encode 0 mock_response +:+ nl;
                  "--------------------------------------" +:+ nl;
                  nl +:+ "Title: Sun-Drenched Industrial Serenity" +:+ nl ])).
Proof.
  apply (main_block_output (VRef 2) (World bare_heap []) bare_scene).
  vm_compute. reflexivity.
Defined.

End MockCall.

(** ** json.loads after json.dumps *)

Section JsonRoundTrip.

Lemma scan_string_escape_char (c : ascii) (tail : string) :
  scan_string (escape_char c +:+ tail)
  = parse_bind (scan_string tail) (fun x r => Parsed (String c x) r).
Proof. destruct c as [[] [] [] [] [] [] [] []]; reflexivity. Qed.

Lemma scan_string_escape (s rest : string) :
  scan_string (escape s +:+ dq +:+ rest) = Parsed s rest.
Proof.
  induction s as [|c s IH]; [reflexivity|].
  cbn [escape]. rewrite append_assoc, scan_string_escape_char, IH. reflexivity.
Qed.

Lemma need_list (ts : list tree) : need (TList ts) = S (need_items ts).
Proof. reflexivity. Qed.

Lemma need_dict (kts : list (string * tree)) : need (TDict kts) = S (need_entries kts).
Proof. reflexivity. Qed.

Lemma skip_ws_spaces (n : nat) (s : string) : skip_ws (spaces n +:+ s) = skip_ws s.
Proof. induction n as [|n IH]; [done|]. exact IH. Qed.

Lemma skip_ws_newline_indent (n : nat) (s : string) :
  skip_ws (newline_indent n +:+ s) = skip_ws s.
Proof.
  unfold newline_indent. rewrite append_assoc.
  change (skip_ws (spaces (2 * n) +:+ s) = skip_ws s). apply skip_ws_spaces.
Qed.

(** The text of a value starts with a quote, a bracket or a brace. *)
Lemma encode_starts (level : nat) (t : tree) :
  ∃ c r, encode level t = String c r
         ∧ (c = "034" ∨ c = "[" ∨ c = "{")%char.
Proof.
  destruct t as [s|[|t ts]|[|kt kts]]; eexists _, _; (split; [reflexivity|]); auto.
Qed.

Lemma skip_ws_encode (level : nat) (t : tree) (r : string) :
  skip_ws (encode level t +:+ r) = encode level t +:+ r.
Proof.
  destruct (encode_starts level t) as (c & r' & E & Hc). rewrite E.
  destruct Hc as [Hc|[Hc|Hc]]; subst c; reflexivity.
Qed.

Lemma scan_elements_step (fuel : nat) (s : string) :
  scan_elements (S fuel) s
  = parse_bind (scan_value fuel s) (fun t r =>
      match skip_ws r with
      | EmptyString => Malformed
      | String c rest =>
          if nat_of_ascii c =? 93 then Parsed [t] rest
          else if nat_of_ascii c =? 44 then
            parse_bind (scan_elements fuel (skip_ws rest)) (fun ts r' => Parsed (t :: ts) r')
          else Malformed
      end).
Proof. reflexivity. Qed.

Lemma scan_members_step (fuel : nat) (s : string) :
  scan_members (S fuel) (dq +:+ s)
  = parse_bind (scan_string s) (fun k r =>
      match skip_ws r with
      | EmptyString => Malformed
      | String colon r1 =>
          if nat_of_ascii colon =? 58 then
            parse_bind (scan_value fuel (skip_ws r1)) (fun t r2 =>
              match skip_ws r2 with
              | EmptyString => Malformed
              | String c r3 =>
                  if nat_of_ascii c =? 125 then Parsed [(k, t)] r3
                  else if nat_of_ascii c =? 44 then
                    parse_bind (scan_members fuel (skip_ws r3))
                      (fun kts r4 => Parsed ((k, t) :: kts) r4)
                  else Malformed
              end)
          else Malformed
      end).
Proof. reflexivity. Qed.

Lemma scan_elements_encode (level : nat) (ts : list tree) :
  Forall reads_back ts → ts ≠ [] →
  ∀ fuel rest, need_items ts ≤ fuel →
    scan_elements fuel
      (String.concat ("," +:+ newline_indent (S level)) (map (encode (S level)) ts)
       +:+ newline_indent level +:+ "]" +:+ rest)
    = Parsed ts rest.
Proof.
  induction 1 as [|t ts Ht Hts IH]; [done|]. intros _ fuel rest Hfuel.
  destruct fuel as [|fuel]; [cbn [need_items] in Hfuel; lia|].
  cbn [need_items] in Hfuel. rewrite scan_elements_step.
  destruct ts as [|t' ts].
  - cbn [map String.concat]. rewrite Ht by lia. cbn [parse_bind].
    rewrite skip_ws_newline_indent. reflexivity.
  - change (String.concat ?sep (map ?f (t :: t' :: ts)))
      with (f t +:+ sep +:+ String.concat sep (map f (t' :: ts))).
    rewrite !append_assoc, Ht by lia. cbn [parse_bind].
    change (skip_ws ("," +:+ ?x)) with (String ","%char x).
    cbv beta iota.
    change (nat_of_ascii "," =? 93) with false.
    change (nat_of_ascii "," =? 44) with true. cbv iota.
    rewrite skip_ws_newline_indent.
    change (map (encode (S level)) (t' :: ts))
      with (encode (S level) t' :: map (encode (S level)) ts).
    assert (∀ x, String.concat ("," +:+ newline_indent (S level))
                   (encode (S level) t' :: map (encode (S level)) ts) +:+ x
                 = encode (S level) t'
                   +:+ (match ts with
                        | [] => ""
                        | _ => ("," +:+ newline_indent (S level))
                               +:+ String.concat ("," +:+ newline_indent (S level))
                                     (map (encode (S level)) ts)
                        end) +:+ x) as Hhead.
    { intros x. destruct ts; [reflexivity|]. cbn [map String.concat].
      by rewrite !append_assoc. }
    rewrite Hhead, skip_ws_encode, <- Hhead.
    change (encode (S level) t' :: map (encode (S level)) ts)
      with (map (encode (S level)) (t' :: ts)).
    rewrite IH; [reflexivity|done|lia].
Qed.

Lemma concat_cons_append (sep x : string) (xs : list string) (y : string) :
  ∃ mid, String.concat sep (x :: xs) +:+ y = x +:+ mid.
Proof.
  destruct xs as [|x' xs]; [by exists y|].
  exists (sep +:+ String.concat sep (x' :: xs) +:+ y).
  change (String.concat sep (x :: x' :: xs)) with (x +:+ sep +:+ String.concat sep (x' :: xs)).
  by rewrite !append_assoc.
Qed.

Lemma starts_value_encode (level : nat) (t : tree) (x : string) :
  starts_value (encode level t +:+ x).
Proof.
  destruct (encode_starts level t) as (c & r & E & Hc).
  exists c, (r +:+ x). by rewrite E.
Qed.

Lemma starts_value_skip (s : string) : starts_value s → skip_ws s = s.
Proof. intros (c & r & -> & [Hc|[Hc|Hc]]); subst c; reflexivity. Qed.

Lemma scan_value_open_list (fuel : nat) (pad s : string) :
  skip_ws (pad +:+ s) = s → starts_value s →
  scan_value (S fuel) ("[" +:+ pad +:+ s)
  = parse_bind (scan_elements fuel s) (fun ts r => Parsed (TList ts) r).
Proof.
  intros Hskip (c & r & -> & Hc).
  change (scan_value (S fuel) ("[" +:+ pad +:+ String c r))
    with (match skip_ws (pad +:+ String c r) with
          | EmptyString => Malformed
          | String c' rest' as body =>
              if nat_of_ascii c' =? 93 then Parsed (TList []) rest'
              else parse_bind (scan_elements fuel body) (fun ts r => Parsed (TList ts) r)
          end).
  rewrite Hskip. by destruct Hc as [Hc|[Hc|Hc]]; subst c.
Qed.

Lemma scan_value_open_dict (fuel : nat) (pad s : string) :
  skip_ws (pad +:+ s) = s → starts_value s →
  scan_value (S fuel) ("{" +:+ pad +:+ s)
  = parse_bind (scan_members fuel s) (fun kts r => Parsed (TDict kts) r).
Proof.
  intros Hskip (c & r & -> & Hc).
  change (scan_value (S fuel) ("{" +:+ pad +:+ String c r))
    with (match skip_ws (pad +:+ String c r) with
          | EmptyString => Malformed
          | String c' rest' as body =>
              if nat_of_ascii c' =? 125 then Parsed (TDict []) rest'
              else parse_bind (scan_members fuel body) (fun kts r => Parsed (TDict kts) r)
          end).
  rewrite Hskip. by destruct Hc as [Hc|[Hc|Hc]]; subst c.
Qed.

Lemma scan_members_encode (level : nat) (kts : list (string * tree)) :
  Forall (fun kt => reads_back (snd kt)) kts → kts ≠ [] →
  ∀ fuel rest, need_entries kts ≤ fuel →
    scan_members fuel
      (String.concat ("," +:+ newline_indent (S level))
         (map (fun kt => encode_string (fst kt) +:+ ": " +:+ encode (S level) (snd kt)) kts)
       +:+ newline_indent level +:+ "}" +:+ rest)
    = Parsed kts rest.
Proof.
  induction 1 as [|[k t] kts Ht Hkts IH]; [done|]. intros _ fuel rest Hfuel.
  destruct fuel as [|fuel]; [cbn [need_entries] in Hfuel; lia|].
  cbn [need_entries snd] in Hfuel. cbn [snd] in Ht.
  assert (∀ tail, scan_members (S fuel)
                    ((encode_string k +:+ ": " +:+ encode (S level) t) +:+ tail)
                  = match skip_ws tail with
                    | EmptyString => Malformed
                    | String c r3 =>
                        if nat_of_ascii c =? 125 then Parsed [(k, t)] r3
                        else if nat_of_ascii c =? 44 then
                          parse_bind (scan_members fuel (skip_ws r3))
                            (fun kts r4 => Parsed ((k, t) :: kts) r4)
                        else Malformed
                    end) as Hentry.
  { intros tail. unfold encode_string. rewrite !append_assoc, scan_members_step.
    rewrite scan_string_escape. cbn [parse_bind].
    change (skip_ws (": " +:+ ?x)) with (String ":"%char (" " +:+ x)).
    cbv beta iota. change (nat_of_ascii ":" =? 58) with true. cbv iota.
    change (skip_ws (" " +:+ ?x)) with (skip_ws x).
    rewrite skip_ws_encode, Ht by lia. reflexivity. }
  destruct kts as [|kt' kts].
  - cbn [map String.concat fst snd]. rewrite Hentry, skip_ws_newline_indent. reflexivity.
  - change (String.concat ?sep (map ?f ((k, t) :: kt' :: kts)))
      with (f (k, t) +:+ sep +:+ String.concat sep (map f (kt' :: kts))).
    cbn [fst snd]. rewrite (append_assoc (_ +:+ _ +:+ _)), Hentry.
    rewrite !append_assoc.
    change (skip_ws ("," +:+ ?x)) with (String ","%char x).
    cbv beta iota.
    change (nat_of_ascii "," =? 125) with false.
    change (nat_of_ascii "," =? 44) with true. cbv iota.
    rewrite skip_ws_newline_indent.
    rewrite starts_value_skip.
    + rewrite IH; [reflexivity|done|lia].
    + destruct kt' as [k' t']. cbn [map].
      destruct (concat_cons_append ("," +:+ newline_indent (S level))
                  (encode_string (fst (k', t')) +:+ ": " +:+ encode (S level) (snd (k', t')))
                  (map (fun kt => encode_string (fst kt) +:+ ": " +:+ encode (S level) (snd kt)) kts)
                  (newline_indent level +:+ "}" +:+ rest)) as [mid ->].
      exists "034"%char, ((escape k' +:+ dq) +:+ (": " +:+ encode (S level) t') +:+ mid).
      split; [|by left]. unfold encode_string. cbn [fst snd]. by rewrite !append_assoc.
Qed.

(** The scanner reads the text of a value back as that value, whatever
    follows the text and whatever the depth of indentation. *)
Lemma scan_value_encode (t : tree) : reads_back t.
Proof.
  induction t as [s|ts IH|kts IH] using tree_nested_ind; intros level fuel rest Hfuel.
  - destruct fuel as [|fuel]; [cbn [need] in Hfuel; lia|].
    cbn [encode]. unfold encode_string. rewrite !append_assoc.
    change (scan_value (S fuel) (dq +:+ ?x))
      with (parse_bind (scan_string x) (fun y r => Parsed (TStr y) r)).
    by rewrite scan_string_escape.
  - rewrite need_list in Hfuel. destruct fuel as [|fuel]; [lia|].
    destruct ts as [|t ts]; [reflexivity|].
    cbn [encode]. rewrite !append_assoc.
    rewrite scan_value_open_list.
    + rewrite (scan_elements_encode level (t :: ts) IH); [reflexivity|done|lia].
    + rewrite skip_ws_newline_indent. apply starts_value_skip.
      cbn [map].
      destruct (concat_cons_append ("," +:+ newline_indent (S level))
                  (encode (S level) t) (map (encode (S level)) ts)
                  (newline_indent level +:+ "]" +:+ rest)) as [mid ->].
      apply starts_value_encode.
    + cbn [map].
      destruct (concat_cons_append ("," +:+ newline_indent (S level))
                  (encode (S level) t) (map (encode (S level)) ts)
                  (newline_indent level +:+ "]" +:+ rest)) as [mid ->].
      apply starts_value_encode.
  - rewrite need_dict in Hfuel. destruct fuel as [|fuel]; [lia|].
    destruct kts as [|[k t] kts]; [reflexivity|].
    cbn [encode]. rewrite !append_assoc.
    assert (starts_value
              (String.concat ("," +:+ newline_indent (S level))
                 (map (fun kt => encode_string (fst kt) +:+ ": " +:+ encode (S level) (snd kt))
                    ((k, t) :: kts))
               +:+ newline_indent level +:+ "}" +:+ rest)) as Hstart.
    { cbn [map].
      destruct (concat_cons_append ("," +:+ newline_indent (S level))
                  (encode_string (fst (k, t)) +:+ ": " +:+ encode (S level) (snd (k, t)))
                  (map (fun kt => encode_string (fst kt) +:+ ": " +:+ encode (S level) (snd kt)) kts)
                  (newline_indent level +:+ "}" +:+ rest)) as [mid ->].
      exists "034"%char, ((escape k +:+ dq) +:+ (": " +:+ encode (S level) t) +:+ mid).
      split; [|by left]. unfold encode_string. cbn [fst snd]. by rewrite !append_assoc. }
    rewrite scan_value_open_dict; [|by rewrite skip_ws_newline_indent, starts_value_skip|done].
    rewrite (scan_members_encode level ((k, t) :: kts) IH); [reflexivity|done|lia].
Qed.

Lemma length_append (a b : string) :
  String.length (a +:+ b) = String.length a + String.length b.
Proof.
  induction a as [|c a IH]; [done|].
  change (S (String.length (a +:+ b)) = S (String.length a + String.length b)).
  by rewrite IH.
Qed.

Lemma length_newline_indent (n : nat) : 1 ≤ String.length (newline_indent n).
Proof. unfold newline_indent. rewrite length_append. simpl. lia. Qed.

Lemma need_items_length (f : tree → string) (sep : string) (ts : list tree) :
  Forall (fun t => need t < String.length (f t)) ts → ts ≠ [] →
  1 ≤ String.length sep →
  need_items ts ≤ String.length (String.concat sep (map f ts)).
Proof.
  intros Hts _ Hsep. induction Hts as [|t ts Ht Hts IH]; [done|].
  destruct ts as [|t' ts].
  - cbn [need_items map String.concat]. lia.
  - change (String.concat sep (map f (t :: t' :: ts)))
      with (f t +:+ sep +:+ String.concat sep (map f (t' :: ts))).
    rewrite !length_append. cbn [need_items] in *. lia.
Qed.

Lemma need_entries_length (f : string * tree → string) (sep : string)
    (kts : list (string * tree)) :
  Forall (fun kt => need (snd kt) < String.length (f kt)) kts → kts ≠ [] →
  1 ≤ String.length sep →
  need_entries kts ≤ String.length (String.concat sep (map f kts)).
Proof.
  intros Hkts _ Hsep. induction Hkts as [|kt kts Ht Hkts IH]; [done|].
  destruct kts as [|kt' kts].
  - cbn [need_entries map String.concat]. lia.
  - change (String.concat sep (map f (kt :: kt' :: kts)))
      with (f kt +:+ sep +:+ String.concat sep (map f (kt' :: kts))).
    rewrite !length_append. cbn [need_entries] in *. lia.
Qed.

(** The text of a value is longer than the fuel its scan needs. *)
Lemma need_below_length (t : tree) (level : nat) :
  need t < String.length (encode level t).
Proof.
  revert level. induction t as [s|ts IH|kts IH] using tree_nested_ind; intros level.
  - cbn [encode need]. unfold encode_string. rewrite !length_append. simpl. lia.
  - rewrite need_list. destruct ts as [|t ts]; [simpl; lia|].
    cbn [encode]. rewrite !length_append.
    pose proof (length_newline_indent (S level)).
    pose proof (length_newline_indent level).
    pose proof (need_items_length (encode (S level)) ("," +:+ newline_indent (S level))
                  (t :: ts)) as Hn.
    rewrite length_append in Hn.
    change (String.length ",") with 1 in *. change (String.length "[") with 1.
    change (String.length "]") with 1. change (String.length "{") with 1.
    change (String.length "}") with 1.
    assert (need_items (t :: ts)
            ≤ String.length (String.concat ("," +:+ newline_indent (S level))
                               (map (encode (S level)) (t :: ts)))); [|lia].
    apply Hn; [|done|lia]. eapply Forall_impl; [exact IH|]. intros x Hx. apply Hx.
  - rewrite need_dict. destruct kts as [|kt kts]; [simpl; lia|].
    cbn [encode]. rewrite !length_append.
    pose proof (length_newline_indent (S level)).
    pose proof (length_newline_indent level).
    pose proof (need_entries_length
                  (fun kt => encode_string (fst kt) +:+ ": " +:+ encode (S level) (snd kt))
                  ("," +:+ newline_indent (S level)) (kt :: kts)) as Hn.
    rewrite length_append in Hn.
    change (String.length ",") with 1 in *. change (String.length "[") with 1.
    change (String.length "]") with 1. change (String.length "{") with 1.
    change (String.length "}") with 1.
    assert (need_entries (kt :: kts)
            ≤ String.length
                (String.concat ("," +:+ newline_indent (S level))
                   (map (fun kt => encode_string (fst kt) +:+ ": " +:+ encode (S level) (snd kt))
                      (kt :: kts)))); [|lia].
    apply Hn; [|done|lia]. eapply Forall_impl; [exact IH|]. intros x Hx. cbn beta in *.
    rewrite !length_append. specialize (Hx (S level)). lia.
Qed.


Lemma json_text_alone (t : tree) : decode (encode 0 t) = Parsed t "".
Proof.
  unfold decode. rewrite <- (append_nil_r (encode 0 t)) at 2.
  rewrite starts_value_skip by apply starts_value_encode.
  rewrite scan_value_encode; [reflexivity|].
  pose proof (need_below_length t 0). lia.
Qed.



Lemma ascii_only_app (a b : string) :
  ascii_only (a +:+ b) = ascii_only a && ascii_only b.
Proof.
  induction a as [|c a IH]; [done|].
  change (ascii_only (String c (a +:+ b)) = ascii_only (String c a) && ascii_only b).
  cbn [ascii_only]. by rewrite IH, andb_assoc.
Qed.

Lemma ascii_only_escape_char (c : ascii) : ascii_only (escape_char c) = true.
Proof. destruct c as [[] [] [] [] [] [] [] []]; reflexivity. Qed.

Lemma ascii_only_escape (s : string) : ascii_only (escape s) = true.
Proof.
  induction s as [|c s IH]; [done|].
  cbn [escape]. by rewrite ascii_only_app, ascii_only_escape_char, IH.
Qed.

Lemma ascii_only_encode_string (s : string) : ascii_only (encode_string s) = true.
Proof. unfold encode_string. by rewrite !ascii_only_app, ascii_only_escape. Qed.

Lemma ascii_only_newline_indent (n : nat) : ascii_only (newline_indent n) = true.
Proof.
  unfold newline_indent. rewrite ascii_only_app.
  induction (2 * n) as [|m IH]; [done|]. exact IH.
Qed.

Lemma ascii_only_concat (sep : string) (xs : list string) :
  ascii_only sep = true → Forall (fun x => ascii_only x = true) xs →
  ascii_only (String.concat sep xs) = true.
Proof.
  intros Hsep Hxs. induction Hxs as [|x xs Hx Hxs IH]; [done|].
  destruct xs as [|x' xs]; [done|].
  change (ascii_only (x +:+ sep +:+ String.concat sep (x' :: xs)) = true).
  by rewrite !ascii_only_app, Hx, Hsep, IH.
Qed.

(** X16: the text json.dumps(indent=2) writes holds nothing but printable
    ASCII characters and line breaks, whatever characters the strings and
    keys of the value hold: every other character is written as an
    escape. *)
Theorem json_text_is_ascii (t : tree) (level : nat) :
  ascii_only (encode level t) = true.
Proof.
  revert level. induction t as [s|ts IH|kts IH] using tree_nested_ind; intros level.
  - apply ascii_only_encode_string.
  - destruct ts as [|t ts]; [done|]. cbn [encode].
    rewrite !ascii_only_app, !ascii_only_newline_indent.
    rewrite ascii_only_concat; [done|by rewrite ascii_only_app, ascii_only_newline_indent|].
    apply Forall_map. eapply Forall_impl; [exact IH|]. intros x Hx. apply Hx.
  - destruct kts as [|kt kts]; [done|]. cbn [encode].
    rewrite !ascii_only_app, !ascii_only_newline_indent.
    rewrite ascii_only_concat; [done|by rewrite ascii_only_app, ascii_only_newline_indent|].
    apply Forall_map. eapply Forall_impl; [exact IH|]. intros x Hx. cbn beta.
    by rewrite !ascii_only_app, ascii_only_encode_string, Hx.
Qed.

End JsonRoundTrip.
